(** * hn_scraper.py: fetch the Hacker News front page and list the story titles

    A shallow embedding of [src/hn_scraper.py].  The script is a single
    [try] block: build a request, open it, decode the body, run
    [re.findall] with a primary pattern and (when that finds nothing) a
    fallback pattern, print the result; the handler prints the exception
    to the error stream and leaves with status 1.

    Python values are modelled as follows.
    - [str]: a list of Unicode code points ([N]);
    - [bytes]: a list of [Byte.byte];
    - the interpreter's effects (the [urlopen] call, the calls of
      [re.findall], the [print] calls) are recorded in a trace that is
      threaded through a small exception monad;
    - the library functions the script calls ([bytes.decode],
      [re.findall], [str.strip], [str(int)]) are given executable models
      for the fragment the script uses.  *)

From Stdlib Require Import List Arith NArith ZArith Lia Bool.
From Stdlib Require Import Ascii String DecimalString.
From Stdlib.Strings Require Import Byte.
Import ListNotations.

Set Implicit Arguments.

(** [length] is the length of a list throughout. *)
Abbreviation length := List.length.

(* ===================================================================== *)
(** ** Python strings *)
(* ===================================================================== *)

(** A character is a Unicode code point, a [str] a sequence of them. *)
Definition char := N.
Definition str := list char.
Definition bytes := list byte.

Definition char_eqb (a b : char) : bool := N.eqb a b.

(** [between lo hi b]: [lo <= b <= hi]. *)
Definition between (lo hi b : N) : bool := (N.leb lo b && N.leb b hi)%bool.

(** A continuation byte of UTF-8 ([10xxxxxx]). *)
Definition is_cont (b : N) : bool := between 128 191 b.

Definition low6 (b : N) : N := N.land b 63.

(** [bytes.decode('utf-8')] with the default [errors='strict']: the
    well-formed byte sequences of the Unicode standard (no overlong forms,
    no surrogates, nothing above U+10FFFF); [None] stands for the
    [UnicodeDecodeError] the decoder raises. *)
Fixpoint utf8_decode_N (bs : list N) : option str :=
  match bs with
  | [] => Some []
  | b0 :: r0 =>
    if N.ltb b0 128 then option_map (cons b0) (utf8_decode_N r0)
    else if between 194 223 b0 then
      match r0 with
      | b1 :: r1 =>
        if is_cont b1
        then option_map (cons (N.lor (N.shiftl (N.land b0 31) 6) (low6 b1)))
                        (utf8_decode_N r1)
        else None
      | _ => None
      end
    else if between 224 239 b0 then
      match r0 with
      | b1 :: b2 :: r2 =>
        if (between (if N.eqb b0 224 then 160 else 128)
                    (if N.eqb b0 237 then 159 else 191) b1
            && is_cont b2)%bool
        then option_map
               (cons (N.lor (N.shiftl (N.land b0 15) 12)
                            (N.lor (N.shiftl (low6 b1) 6) (low6 b2))))
               (utf8_decode_N r2)
        else None
      | _ => None
      end
    else if between 240 244 b0 then
      match r0 with
      | b1 :: b2 :: b3 :: r3 =>
        if (between (if N.eqb b0 240 then 144 else 128)
                    (if N.eqb b0 244 then 143 else 191) b1
            && is_cont b2 && is_cont b3)%bool
        then option_map
               (cons (N.lor (N.shiftl (N.land b0 7) 18)
                            (N.lor (N.shiftl (low6 b1) 12)
                                   (N.lor (N.shiftl (low6 b2) 6) (low6 b3)))))
               (utf8_decode_N r3)
        else None
      | _ => None
      end
    else None
  end.

Definition utf8_decode (bs : bytes) : option str :=
  utf8_decode_N (map Byte.to_N bs).

(** A string literal of the script.  The source file is declared
    [coding: utf-8], so a literal is the decoding of the bytes between its
    quotes. *)
Definition py (lit : string) : str :=
  match utf8_decode (list_byte_of_string lit) with
  | Some s => s
  | None => []
  end.

(** The double quote, which the patterns contain. *)
Definition dquote : string := String "034"%char EmptyString.

(** [str(n)] for a non-negative integer: the decimal digits, produced from
    the least significant one by repeated division by ten. *)
Fixpoint digits (fuel n : nat) (acc : str) : str :=
  match fuel with
  | 0 => acc
  | S fuel' =>
    let acc' := (48 + N.of_nat (n mod 10))%N :: acc in
    if n / 10 =? 0 then acc' else digits fuel' (n / 10) acc'
  end.

Definition str_of_nat (n : nat) : str := digits (S n) n [].

(** [str.isspace] for one character (CPython's [_PyUnicode_IsWhitespace]). *)
Definition isspace (c : char) : bool :=
  (between 9 13 c || between 28 32 c || N.eqb c 133 || N.eqb c 160
   || N.eqb c 5760 || between 8192 8202 c || N.eqb c 8232 || N.eqb c 8233
   || N.eqb c 8239 || N.eqb c 8287 || N.eqb c 12288)%bool.

Fixpoint lstrip (s : str) : str :=
  match s with
  | c :: s' => if isspace c then lstrip s' else s
  | [] => []
  end.

Definition rstrip (s : str) : str := rev (lstrip (rev s)).

(** [str.strip()]: the left index moves right over whitespace, then the
    right index moves left over whitespace. *)
Definition strip (s : str) : str := rstrip (lstrip s).

(** [s[b:e]] for [0 <= b <= e]. *)
Definition slice (s : str) (b e : nat) : str := firstn (e - b) (skipn b s).


(* ===================================================================== *)
(** ** The [re] module: the fragment of patterns the script uses *)
(* ===================================================================== *)

(** Tests on one character (the [sre] opcodes of the same names). *)
Inductive charset :=
| LITERAL (c : char)
| NOT_LITERAL (c : char)
| ANY                                   (* [.]: anything but a line feed *)
| ANY_ALL                               (* [.] under [re.DOTALL] *)
| IN (negate : bool) (members : list char).

(** Compiled code: a sequence of operations.  Repetition is over one
    character test and has no upper bound ([*], [+], [*?], [+?]). *)
Inductive op :=
| AT (cs : charset)
| MAX_REPEAT (min : nat) (cs : charset)   (* greedy *)
| MIN_REPEAT (min : nat) (cs : charset)   (* lazy *)
| MARK (i : nat).                         (* group [g] opens at mark [2g-2], closes at [2g-1] *)

Record Pattern := { code : list op; groups : nat }.

Inductive flag := DOTALL.

Definition accepts (cs : charset) (x : char) : bool :=
  match cs with
  | LITERAL c => char_eqb x c
  | NOT_LITERAL c => negb (char_eqb x c)
  | ANY => negb (char_eqb x 10%N)
  | ANY_ALL => true
  | IN negate ms => xorb negate (existsb (char_eqb x) ms)
  end.

(** *** Parsing a pattern *)

Inductive token :=
| TAtom (cs : charset) | TStar | TPlus | TQuest | TOpen | TClose.

Inductive lex_state :=
| Outside
| ClassStart                              (* just after the opening bracket *)
| ClassBody (negate : bool) (rev_members : list char).

Definition class_of (negate : bool) (ms : list char) : charset :=
  match ms, negate with
  | [c], false => LITERAL c
  | [c], true => NOT_LITERAL c
  | _, _ => IN negate ms
  end.

(** Characters with a meaning this fragment does not cover. *)
Definition unsupported_outside (c : char) : bool :=
  existsb (char_eqb c) (py "\^$|{}]").

Definition unsupported_in_class (c : char) : bool :=
  existsb (char_eqb c) (py "\-[").

Fixpoint lex (dotall : bool) (st : lex_state) (p : str) : option (list token) :=
  match p with
  | [] => match st with Outside => Some [] | _ => None end
  | c :: p' =>
    match st with
    | Outside =>
      if char_eqb c 91%N then lex dotall ClassStart p'
      else if unsupported_outside c then None
      else
        option_map
          (cons (if char_eqb c 46%N then TAtom (if dotall then ANY_ALL else ANY)
                 else if char_eqb c 42%N then TStar
                 else if char_eqb c 43%N then TPlus
                 else if char_eqb c 63%N then TQuest
                 else if char_eqb c 40%N then TOpen
                 else if char_eqb c 41%N then TClose
                 else TAtom (LITERAL c)))
          (lex dotall Outside p')
    | ClassStart =>
      if char_eqb c 94%N then lex dotall (ClassBody true []) p'
      else if (unsupported_in_class c || char_eqb c 93%N)%bool then None
      else lex dotall (ClassBody false [c]) p'
    | ClassBody negate ms =>
      if char_eqb c 93%N then
        match ms with
        | [] => None
        | _ => option_map (cons (TAtom (class_of negate (rev ms))))
                          (lex dotall Outside p')
        end
      else if unsupported_in_class c then None
      else lex dotall (ClassBody negate (c :: ms)) p'
    end
  end.

Definition is_quantifier (t : token) : bool :=
  match t with TStar | TPlus | TQuest => true | _ => false end.

(** [parse ts ingroup g]: the code of the tokens [ts]; [g] groups have been
    closed so far, [ingroup] tells whether one is open. *)
Fixpoint parse (ts : list token) (ingroup : bool) (g : nat)
  : option (list op * nat) :=
  let out o r := option_map (fun '(c, n) => (o :: c, n)) r in
  match ts with
  | [] => if ingroup then None else Some ([], g)
  | TAtom cs :: ts1 =>
    match ts1 with
    | TStar :: TQuest :: ts2 => out (MIN_REPEAT 0 cs) (parse ts2 ingroup g)
    | TStar :: ts2 => out (MAX_REPEAT 0 cs) (parse ts2 ingroup g)
    | TPlus :: TQuest :: ts2 => out (MIN_REPEAT 1 cs) (parse ts2 ingroup g)
    | TPlus :: ts2 => out (MAX_REPEAT 1 cs) (parse ts2 ingroup g)
    | TQuest :: _ => None
    | _ => out (AT cs) (parse ts1 ingroup g)
    end
  | TOpen :: ts1 =>
    if ingroup then None else out (MARK (2 * g)) (parse ts1 true g)
  | TClose :: ts1 =>
    if ingroup then
      match ts1 with
      | t :: _ => if is_quantifier t then None
                  else out (MARK (2 * g + 1)) (parse ts1 false (S g))
      | [] => out (MARK (2 * g + 1)) (parse ts1 false (S g))
      end
    else None
  | _ => None
  end.

(** [re.compile(pattern, flags)]; [None] is [re.error], or a pattern outside
    the fragment. *)
Definition sre_compile (pattern : str) (flags : list flag) : option Pattern :=
  match lex (existsb (fun f => match f with DOTALL => true end) flags)
            Outside pattern with
  | None => None
  | Some ts =>
    match parse ts false 0 with
    | Some (c, n) => Some {| code := c; groups := n |}
    | None => None
    end
  end.

(** *** Matching *)

(** The marks set so far, most recent first. *)
Definition marks := list (nat * nat).

Definition set_mark (i pos : nat) (m : marks) : marks := (i, pos) :: m.

Fixpoint get_mark (i : nat) (m : marks) : option nat :=
  match m with
  | [] => None
  | (j, pos) :: m' => if j =? i then Some pos else get_mark i m'
  end.

(** What remains to be done after a piece of code: it is given the rest of
    the subject, the position reached and the marks, and answers with the
    end of the match or fails, which makes the matcher try its next
    alternative. *)
Definition cont := str -> nat -> marks -> option (nat * marks).

(** Greedy repetition: take one more character when possible, and give up
    the last one taken when what follows fails. *)
Fixpoint max_repeat (cs : charset) (k : cont) (min : nat)
         (s : str) (pos : nat) (m : marks) {struct s} : option (nat * marks) :=
  match s with
  | x :: s' =>
    if accepts cs x then
      match max_repeat cs k (pred min) s' (S pos) m with
      | Some r => Some r
      | None => if min =? 0 then k s pos m else None
      end
    else if min =? 0 then k s pos m else None
  | [] => if min =? 0 then k s pos m else None
  end.

(** Lazy repetition: try what follows first, take one more character when
    it fails. *)
Fixpoint min_repeat (cs : charset) (k : cont) (min : nat)
         (s : str) (pos : nat) (m : marks) {struct s} : option (nat * marks) :=
  match (if min =? 0 then k s pos m else None) with
  | Some r => Some r
  | None =>
    match s with
    | x :: s' =>
      if accepts cs x then min_repeat cs k (pred min) s' (S pos) m else None
    | [] => None
    end
  end.

Fixpoint sre_match (c : list op) (k : cont) : cont :=
  match c with
  | [] => k
  | AT cs :: c' =>
    fun s pos m =>
      match s with
      | x :: s' => if accepts cs x then sre_match c' k s' (S pos) m else None
      | [] => None
      end
  | MAX_REPEAT min cs :: c' => max_repeat cs (sre_match c' k) min
  | MIN_REPEAT min cs :: c' => min_repeat cs (sre_match c' k) min
  | MARK i :: c' => fun s pos m => sre_match c' k s pos (set_mark i pos m)
  end.

(** The end of the code.  After an empty match the next search must not
    accept an empty match at the place where it starts. *)
Definition accept (must_advance : bool) (start : nat) : cont :=
  fun _ pos m =>
    if (must_advance && (pos =? start))%bool then None else Some (pos, m).

(** [search]: the first position from [pos] on at which the code matches;
    [s] is the subject from [pos] on. *)
Fixpoint sre_search (c : list op) (s : str) (pos : nat) (must_advance : bool)
  : option (nat * nat * marks) :=
  match sre_match c (accept must_advance pos) s pos [] with
  | Some (e, m) => Some (pos, e, m)
  | None =>
    match s with
    | [] => None
    | _ :: s' => sre_search c s' (S pos) false
    end
  end.

(** The item [findall] yields for a match: the whole match when the pattern
    has no group, the text of group 1 when it has one (an unset group
    gives the empty string). *)
Definition item (p : Pattern) (subject : str) (b e : nat) (m : marks) : str :=
  if groups p =? 0 then slice subject b e
  else match get_mark 0 m, get_mark 1 m with
       | Some gb, Some ge => slice subject gb ge
       | _, _ => []
       end.

(** The loop of [findall]: search from [start], keep the item, go on from
    the end of the match. *)
Fixpoint findall_loop (fuel : nat) (p : Pattern) (subject : str)
         (start : nat) (must_advance : bool) : list str :=
  match fuel with
  | 0 => []
  | S fuel' =>
    match sre_search (code p) (skipn start subject) start must_advance with
    | None => []
    | Some (b, e, m) =>
      item p subject b e m :: findall_loop fuel' p subject e (e =? b)
    end
  end.

(** Every turn of the loop either moves [start] forward or follows an empty
    match, so [2 * len + 3] turns are enough. *)
Definition findall (p : Pattern) (subject : str) : list str :=
  findall_loop (2 * List.length subject + 3) p subject 0 false.

(* ===================================================================== *)
(** ** The interpreter: exceptions, library calls, output *)
(* ===================================================================== *)

(** An instance of [Exception]; [exc_str] is what [str(e)] gives.  Signals
    that are not instances of [Exception] ([KeyboardInterrupt], ...) are
    outside this model. *)
Record Exception := { exc_type : string; exc_str : str }.

(** [urllib.request.Request(url, headers=...)]; without [data] the method
    is GET. *)
Record Request :=
  { full_url : str; headers : list (str * str); data : option bytes }.

Definition get_method (r : Request) : string :=
  match data r with None => "GET" | Some _ => "POST" end.

Inductive stream := stdout | stderr.

(** What the script does to the outside, in the order it does it. *)
Inductive event :=
| Urlopen (req : Request) (timeout : Z)
| Findall (pat : str) (flags : list flag)
| PrintTo (file : stream) (text : str).    (* [print(text, file=file)] *)

(** The outside: what [urlopen(req, timeout=t)] followed by
    [response.read()] delivers (the body, or the exception raised on the
    way), and the text of the [UnicodeDecodeError] the decoder raises on a
    body that is not UTF-8. *)
Record World :=
  { http : Request -> Z -> Exception + bytes;
    decode_error_str : bytes -> str }.

Inductive outcome (A : Type) :=
| Return (a : A)
| Raise (e : Exception)
| Exit (status : Z).                      (* [SystemExit], not an [Exception] *)
Arguments Return {A} a.
Arguments Raise {A} e.
Arguments Exit {A} status.

Definition M (A : Type) := list event -> outcome A * list event.

Definition ret {A} (a : A) : M A := fun t => (Return a, t).

Definition bind {A B} (c : M A) (f : A -> M B) : M B :=
  fun t =>
    match c t with
    | (Return a, t') => f a t'
    | (Raise e, t') => (Raise e, t')
    | (Exit n, t') => (Exit n, t')
    end.

Notation "x <- c ;; k" := (bind c (fun x => k))
  (at level 61, c at next level, right associativity).
Notation "c ;; k" := (bind c (fun _ => k))
  (at level 61, right associativity).

Definition raise {A} (e : Exception) : M A := fun t => (Raise e, t).

Definition emit (ev : event) : M unit := fun t => (Return tt, t ++ [ev]).

(** [try: body / except Exception as e: handler e]. *)
Definition try_except {A} (body : M A) (handler : Exception -> M A) : M A :=
  fun t =>
    match body t with
    | (Raise e, t') => handler e t'
    | r => r
    end.

(** [sys.exit(status)]. *)
Definition sys_exit {A} (status : Z) : M A := fun t => (Exit status, t).

(** [print(text, file=file)] on a stream that takes the text; [print_on]
    below is the call on a stream that may refuse it. *)
Definition print (file : stream) (text : str) : M unit :=
  emit (PrintTo file text).

(** [with urlopen(req, timeout=t) as response: response.read()]. *)
Definition urlopen_read (w : World) (req : Request) (timeout : Z) : M bytes :=
  emit (Urlopen req timeout) ;;
  match http w req timeout with
  | inl e => raise e
  | inr body => ret body
  end.

(** The exception the decoder raises on [body]. *)
Definition UnicodeDecodeError (w : World) (body : bytes) : Exception :=
  {| exc_type := "UnicodeDecodeError"; exc_str := decode_error_str w body |}.

(** [body.decode('utf-8')]. *)
Definition decode (w : World) (body : bytes) : M str :=
  match utf8_decode body with
  | Some s => ret s
  | None => raise (UnicodeDecodeError w body)
  end.

(** [re.findall(pattern, string, flags)]. *)
Definition re_findall (pat : str) (subject : str) (flags : list flag)
  : M (list str) :=
  emit (Findall pat flags) ;;
  match sre_compile pat flags with
  | Some p => ret (findall p subject)
  | None => raise {| exc_type := "re.error"; exc_str := pat |}
  end.

(** [for i, x in enumerate(xs, start): body i x]. *)
Fixpoint for_enumerate {A} (start : nat) (xs : list A)
         (body : nat -> A -> M unit) : M unit :=
  match xs with
  | [] => ret tt
  | x :: xs' => body start x ;; for_enumerate (S start) xs' body
  end.

(** The text a stream has received: every [print] writes its argument and
    a line feed. *)
Definition stream_eqb (a b : stream) : bool :=
  match a, b with
  | stdout, stdout | stderr, stderr => true
  | _, _ => false
  end.

Fixpoint written (file : stream) (t : list event) : str :=
  match t with
  | [] => []
  | PrintTo f text :: t' =>
    if stream_eqb f file then text ++ 10%N :: written file t'
    else written file t'
  | _ :: t' => written file t'
  end.

(** The lines of a text: the pieces between line feeds (a final line feed
    ends the last line). *)
Fixpoint lines_aux (cur : str) (s : str) : list str :=
  match s with
  | [] => match cur with [] => [] | _ => [rev cur] end
  | c :: s' =>
    if char_eqb c 10%N then rev cur :: lines_aux [] s'
    else lines_aux (c :: cur) s'
  end.

Definition lines (s : str) : list str := lines_aux [] s.

(* ===================================================================== *)
(** ** The script *)
(* ===================================================================== *)

Definition url : str := py "https://news.ycombinator.com".

Definition pattern : str :=
  py ("<span class=" ++ dquote ++ "titleline" ++ dquote
      ++ "><a[^>]*>([^<]+)</a>").

Definition pattern2 : str :=
  py ("class=" ++ dquote ++ "titleline" ++ dquote
      ++ "[^>]*>.*?<a[^>]*>([^<]+)</a>").

Definition msg_fallback : str := py "未找到标题，尝试备用模式...".
Definition msg_not_found : str := py "未能提取到标题".

(** [f"抓取到 {len(titles)} 个标题：\n"]: the text ends with a line feed of
    its own. *)
Definition msg_count (n : nat) : str :=
  py "抓取到 " ++ str_of_nat n ++ py " 个标题：" ++ [10%N].

(** [f"{i}. {title.strip()}"]. *)
Definition msg_title (i : nat) (title : str) : str :=
  str_of_nat i ++ py ". " ++ strip title.

(** [f"错误: {e}"]. *)
Definition msg_error (e : Exception) : str := py "错误: " ++ exc_str e.

(** Lines 8-15: the request and the decoded body. *)
Definition req : Request :=
  {| full_url := url;
     headers := [(py "User-Agent", py "Mozilla/5.0")];
     data := None |}.

Definition fetcher (w : World) : M str :=
  body <- urlopen_read w req 10 ;;
  decode w body.

(** Lines 18-25: the primary pattern, and the fallback when it finds
    nothing. *)
Definition extractor (html : str) : M (list str) :=
  titles <- re_findall pattern html [] ;;
  match titles with
  | [] =>
    print stdout msg_fallback ;;
    re_findall pattern2 html [DOTALL]
  | _ => ret titles
  end.

(** Lines 27-32. *)
Definition presenter (titles : list str) : M unit :=
  match titles with
  | _ :: _ =>
    print stdout (msg_count (List.length titles)) ;;
    for_enumerate 1 titles (fun i title => print stdout (msg_title i title))
  | [] => print stdout msg_not_found
  end.

(** Lines 8-32: the body of the [try] statement. *)
Definition try_block (w : World) : M unit :=
  html <- fetcher w ;;
  titles <- extractor html ;;
  presenter titles.

(** The whole file: the [try] block and its handler (lines 34-36). *)
Definition script (w : World) : M unit :=
  try_except
    (try_block w)
    (fun e =>
       print stderr (msg_error e) ;;
       sys_exit 1).

(** A run of the program: what it did, and the status the process leaves
    with (0 when the script runs to its end, the argument of [sys.exit],
    1 for an exception nobody caught). *)
Record Run := { trace : list event; exit_code : Z }.

Definition run (w : World) : Run :=
  match script w [] with
  | (Return _, t) => {| trace := t; exit_code := 0 |}
  | (Raise _, t) => {| trace := t; exit_code := 1 |}
  | (Exit n, t) => {| trace := t; exit_code := n |}
  end.

(** The events a computation adds when started on an empty trace. *)
Definition events {A} (c : M A) : list event := snd (c []).

(** The pure results of the two [re.findall] calls of the script. *)
Definition matches_of (pat : str) (flags : list flag) (html : str) : list str :=
  match sre_compile pat flags with
  | Some p => findall p html
  | None => []
  end.

Definition primary_matches (html : str) : list str :=
  matches_of pattern [] html.

Definition fallback_matches (html : str) : list str :=
  matches_of pattern2 [DOTALL] html.

(** [enumerate(xs, start)] as a list. *)
Fixpoint enumerate {A} (start : nat) (xs : list A) : list (nat * A) :=
  match xs with
  | [] => []
  | x :: xs' => (start, x) :: enumerate (S start) xs'
  end.

(** A world whose server answers with the given bytes. *)
Definition serving (body : string) : World :=
  {| http := fun _ _ => inr (list_byte_of_string body);
     decode_error_str := fun _ => py "invalid start byte" |}.

(* ===================================================================== *)
(** ** The specification's reading of the primary pattern *)
(* ===================================================================== *)

(** The specification describes the primary pattern as
    [<span class="titleline"><a ...>TEXT</a>], [TEXT] being non-empty and
    running up to the first [<].  The definitions of this section follow
    those words, not the code; they are compared with [re.findall] below. *)

Definition titleline_open : str :=
  py ("<span class=" ++ dquote ++ "titleline" ++ dquote ++ "><a").

Definition anchor_close : str := py "</a>".

Fixpoint strip_prefix (p s : str) : option str :=
  match p, s with
  | [], _ => Some s
  | a :: p', b :: s' => if char_eqb a b then strip_prefix p' s' else None
  | _ :: _, [] => None
  end.

(** The text before the first [c], and the rest from that [c] on. *)
Fixpoint upto (c : char) (s : str) : str * str :=
  match s with
  | [] => ([], [])
  | x :: s' =>
    if char_eqb x c then ([], s)
    else let (a, r) := upto c s' in (x :: a, r)
  end.

(** The title of the well-formed titleline anchor that starts [s], if one
    does. *)
Definition spec_anchor (s : str) : option str :=
  match strip_prefix titleline_open s with
  | None => None
  | Some s1 =>
    match snd (upto 62%N s1) with
    | [] => None
    | _ :: s2 =>
      let (text, s3) := upto 60%N s2 in
      match text, strip_prefix anchor_close s3 with
      | _ :: _, Some _ => Some text
      | _, _ => None
      end
    end
  end.

(** The titles of all the well-formed titleline anchors of a document, in
    document order. *)
Fixpoint spec_titles (html : str) : list str :=
  match html with
  | [] => []
  | _ :: rest =>
    match spec_anchor html with
    | Some t => t :: spec_titles rest
    | None => spec_titles rest
    end
  end.

(** No anchor starts inside [w] when [w] is followed by [rest]. *)
Fixpoint quiet (w rest : str) : Prop :=
  match w with
  | [] => True
  | _ :: w' => spec_anchor (w ++ rest) = None /\ quiet w' rest
  end.

(* ===================================================================== *)
(** ** The compiled patterns *)
(* ===================================================================== *)

Definition lits (l : str) : list op := map (fun c => AT (LITERAL c)) l.

(** [([^<]+)</a>], the end of both patterns. *)
Definition capture_tail : list op :=
  [MARK 0; MAX_REPEAT 1 (NOT_LITERAL 60%N); MARK 1] ++ lits anchor_close.

Definition primary_head : list op :=
  lits titleline_open ++ [MAX_REPEAT 0 (NOT_LITERAL 62%N); AT (LITERAL 62%N)].

Definition fallback_head : list op :=
  lits (py ("class=" ++ dquote ++ "titleline" ++ dquote))
  ++ [MAX_REPEAT 0 (NOT_LITERAL 62%N); AT (LITERAL 62%N);
      MIN_REPEAT 0 ANY_ALL; AT (LITERAL 60%N); AT (LITERAL 97%N);
      MAX_REPEAT 0 (NOT_LITERAL 62%N); AT (LITERAL 62%N)].

Definition primary : Pattern :=
  {| code := primary_head ++ capture_tail; groups := 1 |}.

Definition fallback : Pattern :=
  {| code := fallback_head ++ capture_tail; groups := 1 |}.

(** A continuation that fails unless the subject starts with [c]. *)
Definition requires (c : char) (k : cont) : Prop :=
  forall s pos m, hd_error s <> Some c -> k s pos m = None.

(** What the group [([^<]+)] can hold: a non-empty text without [<]. *)
Definition captured_ok (t : str) : Prop := t <> [] /\ ~ In 60%N t.

(** The shape of a subject that starts with a well-formed anchor. *)
Definition anchor_shape (s a text rest : str) : Prop :=
  s = titleline_open ++ a ++ 62%N :: text ++ anchor_close ++ rest
  /\ ~ In 62%N a /\ captured_ok text.

(** The value of [titles] when the extractor is done. *)
Definition extracted (html : str) : list str :=
  match primary_matches html with
  | [] => fallback_matches html
  | ts => ts
  end.

(** What the presenter prints for a sequence of titles. *)
Definition presented (titles : list str) : list event :=
  match titles with
  | [] => [PrintTo stdout msg_not_found]
  | _ :: _ =>
    PrintTo stdout (msg_count (length titles))
    :: map (fun it => PrintTo stdout (msg_title (fst it) (snd it)))
           (enumerate 1 titles)
  end.

(** Whitespace only, and no whitespace at either end. *)
Definition all_space (l : str) : Prop := Forall (fun c => isspace c = true) l.

Definition no_edge_space (t : str) : Prop :=
  (forall c, hd_error t = Some c -> isspace c = false)
  /\ (forall c, hd_error (rev t) = Some c -> isspace c = false).

Definition is_urlopen (ev : event) : bool :=
  match ev with Urlopen _ _ => true | _ => false end.

Definition is_digit (c : char) : Prop := (48 <= c <= 57)%N.

(** The line the presenter prints for the title at index [fst it]. *)
Definition title_line (it : nat * str) : str :=
  str_of_nat (fst it) ++ py ". " ++ strip (snd it).

(** The count line, without the line feeds that follow it. *)
Definition count_line (n : nat) : str :=
  py "抓取到 " ++ str_of_nat n ++ py " 个标题：".

(** The reading under which the "not found" message is all the program
    writes when neither pattern matches. *)
Definition only_not_found (w : World) : Prop :=
  forall body html,
    http w req 10 = inr body -> utf8_decode body = Some html ->
    primary_matches html = [] -> fallback_matches html = [] ->
    written stdout (trace (run w)) = msg_not_found ++ [10%N]
    /\ exit_code (run w) = 0%Z.

(** The reading under which the output is one header line and then one
    line per title. *)
Definition header_then_title_lines (titles : list str) : Prop :=
  exists header,
    lines (written stdout (events (presenter titles)))
    = header :: map title_line (enumerate 1 titles).

(** Some documents and worlds. *)
Definition anchor_html (inner : string) : string :=
  "<span class=" ++ dquote ++ "titleline" ++ dquote ++ "><a href="
  ++ dquote ++ "x" ++ dquote ++ ">" ++ inner ++ "</a></span>".

Definition padded_html : string := anchor_html "  Hello World ".
Definition blank_html : string := anchor_html " ".
Definition no_titles_html : string := "<html><body>nothing</body></html>".

(** A title line whose anchor is not directly inside the span: only the
    fallback pattern finds it. *)
Definition nested_html : string :=
  "<td class=" ++ dquote ++ "titleline" ++ dquote
  ++ "><b>new</b> <a href=" ++ dquote ++ "x" ++ dquote ++ ">Nested</a></td>".

(** A network that times out. *)
Definition timed_out : World :=
  {| http := fun _ _ => inl {| exc_type := "URLError";
                               exc_str := py "<urlopen error timed out>" |};
     decode_error_str := fun _ => [] |}.

(** The input of the specification's scenario. *)
Definition hello_html : str := py (anchor_html "Hello World").

(* ===================================================================== *)
(** ** Notions for the properties of the whole script *)
(* ===================================================================== *)

(** The class marker both patterns look for. *)
Definition titleline_marker : str :=
  py ("class=" ++ dquote ++ "titleline" ++ dquote).

(** [needle] occurs somewhere in [hay]. *)
Definition occurs (needle hay : str) : Prop :=
  exists a b, hay = a ++ needle ++ b.

(** [t] stands in the document after a titleline marker, directly between
    a [>] and a [</a>]. *)
Definition enclosed (html t : str) : Prop :=
  exists before mid after,
    html = before ++ titleline_marker ++ mid
           ++ 62%N :: t ++ anchor_close ++ after.

(** A titleline marker whose tag is closed, then any text at all, then an
    anchor [<a ...>TEXT</a>] with a text the group can hold. *)
Definition loose_shape (html pre a1 mid a2 t rest : str) : Prop :=
  html = pre ++ titleline_marker ++ a1 ++ 62%N :: mid
         ++ 60%N :: 97%N :: a2 ++ 62%N :: t ++ anchor_close ++ rest
  /\ ~ In 62%N a1 /\ ~ In 62%N a2 /\ captured_ok t.

(** The test for [occurs]. *)
Fixpoint occursb (needle hay : str) : bool :=
  match strip_prefix needle hay with
  | Some _ => true
  | None =>
    match hay with
    | [] => false
    | _ :: hay' => occursb needle hay'
    end
  end.

(** A Unicode scalar value: a code point that is not a surrogate. *)
Definition is_scalar (c : char) : Prop :=
  (c < 1114112)%N /\ ~ (55296 <= c <= 57343)%N.

(** A body whose anchor stands two lines below the marker. *)
Definition multiline_html : str :=
  py ("<td class=" ++ dquote ++ "titleline" ++ dquote ++ ">")
  ++ [10%N] ++ py "<b>new</b>" ++ [10%N]
  ++ py ("<a href=" ++ dquote ++ "x" ++ dquote ++ ">Two lines below</a></td>").

(* ===================================================================== *)
(** ** UTF-8, as the standard defines it *)
(* ===================================================================== *)

(** The specification says the body is decoded as UTF-8.  This is the
    encoding itself (RFC 3629, section 3): a scalar value below U+0080 is
    one byte, below U+0800 two, below U+10000 three, and four otherwise,
    the leading byte carrying the length and the others six bits each.  It
    is written from the standard, not from the decoder, and is compared
    with the decoder below. *)
Definition utf8_encode_char (c : char) : list N :=
  if N.ltb c 128 then [c]
  else if N.ltb c 2048 then [192 + c / 64; 128 + c mod 64]%N
  else if N.ltb c 65536 then
    [224 + c / 4096; 128 + (c / 64) mod 64; 128 + c mod 64]%N
  else
    [240 + c / 262144; 128 + (c / 4096) mod 64; 128 + (c / 64) mod 64;
     128 + c mod 64]%N.

Definition utf8_encode (s : str) : list N := flat_map utf8_encode_char s.

(* ===================================================================== *)
(** ** The script on a console that may refuse a text *)
(* ===================================================================== *)

(** [print] raises when the stream cannot take the text (an encoding the
    text does not fit, a closed pipe).  A console says, for a stream and a
    text, whether the write is refused and with which exception. *)
Record Console := { refuses : stream -> str -> option Exception }.

(** [print(text, file=file)] on such a console. *)
Definition print_on (c : Console) (file : stream) (text : str) : M unit :=
  match refuses c file text with
  | Some e => raise e
  | None => print file text
  end.

(** Lines 18-25 on a console. *)
Definition extractor_on (c : Console) (html : str) : M (list str) :=
  titles <- re_findall pattern html [] ;;
  match titles with
  | [] =>
    print_on c stdout msg_fallback ;;
    re_findall pattern2 html [DOTALL]
  | _ => ret titles
  end.

(** Lines 27-32 on a console. *)
Definition presenter_on (c : Console) (titles : list str) : M unit :=
  match titles with
  | _ :: _ =>
    print_on c stdout (msg_count (length titles)) ;;
    for_enumerate 1 titles
                  (fun i title => print_on c stdout (msg_title i title))
  | [] => print_on c stdout msg_not_found
  end.

(** Lines 8-32 on a console: every [print] is inside the [try]. *)
Definition try_block_on (c : Console) (w : World) : M unit :=
  html <- fetcher w ;;
  titles <- extractor_on c html ;;
  presenter_on c titles.

(** The whole file on a console. *)
Definition script_on (c : Console) (w : World) : M unit :=
  try_except
    (try_block_on c w)
    (fun e =>
       print_on c stderr (msg_error e) ;;
       sys_exit 1).

Definition run_on (c : Console) (w : World) : Run :=
  match script_on c w [] with
  | (Return _, t) => {| trace := t; exit_code := 0 |}
  | (Raise _, t) => {| trace := t; exit_code := 1 |}
  | (Exit n, t) => {| trace := t; exit_code := n |}
  end.

(** The console that takes every text: [run] is the run on it. *)
Definition open_console : Console := {| refuses := fun _ _ => None |}.

(** A standard output that encodes as ASCII: a text with any other
    character is refused with [UnicodeEncodeError].  The error stream
    escapes what it cannot encode and refuses nothing. *)
Definition ascii_console : Console :=
  {| refuses := fun file text =>
       match file with
       | stdout =>
         if forallb (fun ch => N.ltb ch 128) text then None
         else Some {| exc_type := "UnicodeEncodeError";
                      exc_str := py "'ascii' codec can't encode characters" |}
       | stderr => None
       end |}.

(** The first refused [print] of a sequence of events: the events before
    it and the exception. *)
Fixpoint first_refusal (c : Console) (evs : list event)
  : option (list event * Exception) :=
  match evs with
  | [] => None
  | ev :: evs' =>
    match (match ev with
           | PrintTo f text => refuses c f text
           | _ => None
           end) with
    | Some e => Some ([], e)
    | None =>
      option_map (fun pe => (ev :: fst pe, snd pe)) (first_refusal c evs')
    end
  end.

(** What the [try] block does after the request when nothing is refused. *)
Definition script_events (html : str) : list event :=
  events (extractor html) ++ presented (extracted html).

(** The handler, reached with the trace [t] and the exception [e]. *)
Definition handled (c : Console) (t : list event) (e : Exception) : Run :=
  match refuses c stderr (msg_error e) with
  | None => {| trace := t ++ [PrintTo stderr (msg_error e)]; exit_code := 1 |}
  | Some _ => {| trace := t; exit_code := 1 |}
  end.

(** Some text the script would print is refused. *)
Definition some_print_refused (c : Console) (html : str) : Prop :=
  exists f text,
    In (PrintTo f text) (script_events html) /\ refuses c f text <> None.

(** The reading under which the extractor returns the titles of the
    well-formed anchors whatever their number. *)
Definition exactly_the_anchors (html : str) : Prop :=
  forall t, fst (extractor html t) = Return (spec_titles html).

(** The reading under which the error branch is reached from a failure of
    the fetch step only. *)
Definition only_fetch_fails (c : Console) (w : World) : Prop :=
  exit_code (run_on c w) = 1%Z -> exists e, fst (fetcher w []) = Raise e.

(* ===================================================================== *)
(** * Properties *)
(* ===================================================================== *)

(** ** The library models on known values *)

Example py_ascii : py "</a>" = [60; 47; 97; 62]%N.
Proof. reflexivity. Qed.

Example py_cjk : py "错误: " = [38169; 35823; 58; 32]%N.
Proof. reflexivity. Qed.

Example utf8_two_three_four :
  utf8_decode (list_byte_of_string "é€😀") = Some [233; 8364; 128512]%N.
Proof. reflexivity. Qed.

Example utf8_rejects_overlong : utf8_decode [xc0; x80] = None.
Proof. reflexivity. Qed.

Example utf8_rejects_surrogate : utf8_decode [xed; xa0; x80] = None.
Proof. reflexivity. Qed.

Example utf8_rejects_truncated : utf8_decode [xe2; x82] = None.
Proof. reflexivity. Qed.

Example utf8_rejects_above_max : utf8_decode [xf4; x90; x80; x80] = None.
Proof. reflexivity. Qed.

Example str_of_nat_values :
  (str_of_nat 0, str_of_nat 7, str_of_nat 30, str_of_nat 1234)
  = (py "0", py "7", py "30", py "1234").
Proof. reflexivity. Qed.

Example strip_keeps_inner_space : strip (py "  a b  ") = py "a b".
Proof. reflexivity. Qed.

Example strip_no_break_space : strip [160; 97; 12288]%N = py "a".
Proof. reflexivity. Qed.

(** [re.findall('a*', 'baac') == ['', 'aa', '', '']] and
    [re.findall('a*?', 'baac') == ['', '', 'a', '', 'a', '', '']]. *)
Example findall_greedy_star :
  matches_of (py "a*") [] (py "baac") = [[]; py "aa"; []; []].
Proof. reflexivity. Qed.

Example findall_lazy_star :
  matches_of (py "a*?") [] (py "baac") = [[]; []; py "a"; []; py "a"; []; []].
Proof. reflexivity. Qed.

Example findall_group : matches_of (py "(a+)b") [] (py "baabab") = [py "aa"; py "a"].
Proof. reflexivity. Qed.

Example findall_dot_stops_at_line_feed :
  matches_of (py "a.*") [] [97; 98; 10; 97; 99]%N = [py "ab"; py "ac"]
  /\ matches_of (py "a.*") [DOTALL] [97; 98; 10; 97; 99]%N
     = [[97; 98; 10; 97; 99]%N].
Proof. split; reflexivity. Qed.

Example fallback_finds_nested :
  primary_matches (py nested_html) = []
  /\ fallback_matches (py nested_html) = [py "Nested"].
Proof. split; vm_compute; reflexivity. Qed.

(** ** The patterns of the script compile to the code above *)

Lemma pattern_compiles : sre_compile pattern [] = Some primary.
Proof. reflexivity. Qed.

Lemma pattern2_compiles : sre_compile pattern2 [DOTALL] = Some fallback.
Proof. reflexivity. Qed.

Lemma primary_matches_eq html : primary_matches html = findall primary html.
Proof. reflexivity. Qed.

Lemma fallback_matches_eq html : fallback_matches html = findall fallback html.
Proof. reflexivity. Qed.

(** ** Characters and lists *)

Lemma char_eqb_eq a b : char_eqb a b = true <-> a = b.
Proof. apply N.eqb_eq. Qed.

Lemma char_eqb_neq a b : char_eqb a b = false <-> a <> b.
Proof. apply N.eqb_neq. Qed.

Lemma char_eqb_sym a b : char_eqb a b = char_eqb b a.
Proof. apply N.eqb_sym. Qed.

Lemma strip_prefix_Some p : forall s r,
  strip_prefix p s = Some r <-> s = p ++ r.
Proof.
  induction p as [|a p IH]; intros s r; simpl.
  - split; [intros [= ->] | intros ->]; reflexivity.
  - destruct s as [|b s]; [split; discriminate|].
    destruct (char_eqb a b) eqn:E.
    + apply char_eqb_eq in E; subst b. rewrite IH.
      split; [intros ->; reflexivity | intros [= ->]; reflexivity].
    + apply char_eqb_neq in E.
      split; [discriminate | intros [= -> _]; congruence].
Qed.

Lemma strip_prefix_app p r : strip_prefix p (p ++ r) = Some r.
Proof. apply strip_prefix_Some; reflexivity. Qed.

Lemma upto_spec c : forall s a r,
  upto c s = (a, r) ->
  s = a ++ r /\ ~ In c a /\ (r = [] \/ exists r', r = c :: r').
Proof.
  induction s as [|x s IH]; simpl; intros a r H.
  - injection H as <- <-. auto.
  - destruct (char_eqb x c) eqn:E.
    + injection H as <- <-. apply char_eqb_eq in E; subst x.
      split; [reflexivity | split; [intros [] | right; eauto]].
    + destruct (upto c s) as [a' r'] eqn:U. injection H as <- <-.
      destruct (IH _ _ eq_refl) as (-> & Hn & Hr).
      apply char_eqb_neq in E.
      split; [reflexivity | split; [|exact Hr]].
      intros [->|Hin]; [congruence | auto].
Qed.

Lemma upto_app c : forall a r,
  ~ In c a -> upto c (a ++ c :: r) = (a, c :: r).
Proof.
  induction a as [|x a IH]; simpl; intros r Hn.
  - unfold char_eqb. rewrite N.eqb_refl. reflexivity.
  - destruct (char_eqb x c) eqn:E.
    + apply char_eqb_eq in E. exfalso; apply Hn; auto.
    + rewrite IH by (intros Hin; apply Hn; auto). reflexivity.
Qed.

(** The first occurrence of a character splits a string in one way only. *)
Lemma first_occurrence (c : char) : forall l1 l2 r1 r2,
  ~ In c l1 -> ~ In c l2 ->
  l1 ++ c :: r1 = l2 ++ c :: r2 -> l1 = l2 /\ r1 = r2.
Proof.
  induction l1 as [|x l1 IH]; intros [|y l2] r1 r2 H1 H2 E; simpl in *.
  - injection E as ->. auto.
  - injection E as <- _. exfalso; apply H2; auto.
  - injection E as -> _. exfalso; apply H1; auto.
  - injection E as -> E.
    destruct (IH l2 r1 r2) as [-> ->]; auto.
Qed.

Lemma skipn_cons_tl (html : str) : forall pos x s,
  skipn pos html = x :: s -> skipn (S pos) html = s.
Proof.
  induction html as [|y html IH]; intros [|pos] x s H; simpl in *;
    try discriminate.
  - injection H as _ <-. reflexivity.
  - destruct html as [|z html']; [destruct pos; discriminate|].
    apply IH with (x := x). exact H.
Qed.

Lemma skipn_add (html : str) : forall n k, skipn n (skipn k html) = skipn (k + n) html.
Proof.
  intros n k. revert html. induction k as [|k IH]; intros html; simpl.
  - reflexivity.
  - destruct html as [|y html]; [destruct n; reflexivity | apply IH].
Qed.

Lemma slice_at (html : str) pos k w rest :
  skipn pos html = k ++ w ++ rest ->
  slice html (pos + length k) (pos + length k + length w) = w.
Proof.
  intros H. unfold slice.
  replace (pos + length k + length w - (pos + length k)) with (length w) by lia.
  rewrite <- skipn_add, H, skipn_app, skipn_all, Nat.sub_diag. simpl.
  rewrite firstn_app, firstn_all, Nat.sub_diag. simpl. apply app_nil_r.
Qed.

(** ** The matcher *)

Section Matcher.

Variable k : cont.

(** A run of literal characters is a prefix test. *)
Lemma match_lits l c : forall s pos m,
  sre_match (lits l ++ c) k s pos m =
  match strip_prefix l s with
  | Some s1 => sre_match c k s1 (pos + length l) m
  | None => None
  end.
Proof.
  induction l as [|a l IH]; intros s pos m; simpl.
  - rewrite Nat.add_0_r. reflexivity.
  - destruct s as [|x s]; [reflexivity|].
    rewrite (char_eqb_sym a x). destruct (char_eqb x a); [|reflexivity].
    rewrite IH. replace (S pos + length l) with (pos + S (length l)) by lia.
    reflexivity.
Qed.

(** A greedy run of "anything but [c]", followed by something that needs
    [c], stops at the first [c]: no other split can succeed. *)
Lemma max_repeat_upto c (Hk : requires c k) : forall s min pos m,
  max_repeat (NOT_LITERAL c) k min s pos m =
  let (a, r) := upto c s in
  if min <=? length a then k r (pos + length a) m else None.
Proof.
  induction s as [|x s IH]; intros min pos m; simpl.
  - rewrite Nat.add_0_r. destruct min; reflexivity.
  - destruct (char_eqb x c) eqn:E; simpl.
    + rewrite Nat.add_0_r. destruct min; reflexivity.
    + assert (Hx : k (x :: s) pos m = None).
      { apply Hk. simpl. intros [= ->]. apply char_eqb_neq in E. congruence. }
      rewrite IH, Hx. destruct (upto c s) as [a r]. simpl.
      rewrite <- plus_n_Sm.
      destruct min as [|min]; simpl.
      * destruct (k r (S (pos + length a)) m); reflexivity.
      * destruct (min <=? length a); [|reflexivity].
        destruct (k r (S (pos + length a)) m); reflexivity.
Qed.

End Matcher.

Lemma requires_at c c' k : requires c (sre_match (AT (LITERAL c) :: c') k).
Proof.
  intros [|x s] pos m H; simpl; [reflexivity|].
  destruct (char_eqb x c) eqn:E; [|reflexivity].
  apply char_eqb_eq in E; subst x. simpl in H. congruence.
Qed.

Lemma requires_mark c i c' k :
  requires c (sre_match c' k) -> requires c (sre_match (MARK i :: c') k).
Proof. intros H s pos m Hs. simpl. apply H. exact Hs. Qed.

(** Whatever the code before it, a successful match runs its continuation
    on a suffix of the subject, at the position of that suffix. *)
Lemma max_repeat_reaches cs k r : forall s min pos m,
  max_repeat cs k min s pos m = Some r ->
  exists w s', s = w ++ s' /\ k s' (pos + length w) m = Some r.
Proof.
  induction s as [|x s IH]; intros min pos m H; simpl in H.
  - destruct (min =? 0); [|discriminate].
    exists [], []. rewrite Nat.add_0_r. auto.
  - assert (Hhere : (if min =? 0 then k (x :: s) pos m else None) = Some r ->
                    exists w s', x :: s = w ++ s' /\
                                 k s' (pos + length w) m = Some r).
    { destruct (min =? 0); [|discriminate]. intros Hk.
      exists [], (x :: s). rewrite Nat.add_0_r. auto. }
    destruct (accepts cs x); [|auto].
    destruct (max_repeat cs k (pred min) s (S pos) m) eqn:Hrec; [|auto].
    injection H as ->.
    destruct (IH _ _ _ Hrec) as (w & s' & -> & Hk).
    exists (x :: w), s'. split; [reflexivity|].
    simpl. rewrite <- Hk. f_equal. lia.
Qed.

Lemma min_repeat_reaches cs k r : forall s min pos m,
  min_repeat cs k min s pos m = Some r ->
  exists w s', s = w ++ s' /\ k s' (pos + length w) m = Some r.
Proof.
  induction s as [|x s IH]; intros min pos m H; simpl in H.
  - destruct (if min =? 0 then k [] pos m else None) eqn:Hk; [|discriminate].
    injection H as ->. destruct (min =? 0); [|discriminate].
    exists [], []. rewrite Nat.add_0_r. auto.
  - destruct (if min =? 0 then k (x :: s) pos m else None) eqn:Hk.
    + injection H as ->. destruct (min =? 0); [|discriminate].
      exists [], (x :: s). rewrite Nat.add_0_r. auto.
    + destruct (accepts cs x); [|discriminate].
      destruct (IH _ _ _ H) as (w & s' & -> & Hk').
      exists (x :: w), s'. split; [reflexivity|].
      simpl. rewrite <- Hk'. f_equal. lia.
Qed.

Lemma match_reaches c : forall k s pos m r,
  sre_match c k s pos m = Some r ->
  exists w s' m', s = w ++ s' /\ k s' (pos + length w) m' = Some r.
Proof.
  induction c as [|o c IH]; intros k s pos m r H; simpl in H.
  - exists [], s, m. rewrite Nat.add_0_r. auto.
  - destruct o as [cs|min cs|min cs|i].
    + destruct s as [|x s]; [discriminate|].
      destruct (accepts cs x); [|discriminate].
      destruct (IH _ _ _ _ _ H) as (w & s' & m' & -> & Hk).
      exists (x :: w), s', m'. split; [reflexivity|].
      simpl. rewrite <- Hk. f_equal. lia.
    + destruct (max_repeat_reaches _ _ _ _ _ _ H) as (w & s' & -> & H').
      destruct (IH _ _ _ _ _ H') as (w2 & s2 & m' & -> & Hk).
      exists (w ++ w2), s2, m'. rewrite <- app_assoc. split; [reflexivity|].
      rewrite <- Hk. f_equal. rewrite length_app. lia.
    + destruct (min_repeat_reaches _ _ _ _ _ _ H) as (w & s' & -> & H').
      destruct (IH _ _ _ _ _ H') as (w2 & s2 & m' & -> & Hk).
      exists (w ++ w2), s2, m'. rewrite <- app_assoc. split; [reflexivity|].
      rewrite <- Hk. f_equal. rewrite length_app. lia.
    + apply IH in H. exact H.
Qed.

(** Code in sequence: the second part is the continuation of the first. *)
Lemma max_repeat_ext cs k1 k2 (E : forall s pos m, k1 s pos m = k2 s pos m) :
  forall s min pos m,
  max_repeat cs k1 min s pos m = max_repeat cs k2 min s pos m.
Proof.
  induction s as [|x s IH]; intros min pos m; simpl.
  - rewrite E. reflexivity.
  - rewrite IH, E. reflexivity.
Qed.

Lemma min_repeat_ext cs k1 k2 (E : forall s pos m, k1 s pos m = k2 s pos m) :
  forall s min pos m,
  min_repeat cs k1 min s pos m = min_repeat cs k2 min s pos m.
Proof.
  induction s as [|x s IH]; intros min pos m; simpl.
  - rewrite E. reflexivity.
  - rewrite IH, E. reflexivity.
Qed.

Lemma match_app c1 c2 k : forall s pos m,
  sre_match (c1 ++ c2) k s pos m = sre_match c1 (sre_match c2 k) s pos m.
Proof.
  induction c1 as [|o c1 IH]; intros s pos m; simpl; [reflexivity|].
  destruct o as [cs|min cs|min cs|i].
  - destruct s as [|x s]; [reflexivity|]. rewrite IH. reflexivity.
  - apply max_repeat_ext. exact IH.
  - apply min_repeat_ext. exact IH.
  - apply IH.
Qed.

(** ** The loop of [findall] ends within its fuel *)

Lemma match_end c ma start s pos e m :
  sre_match c (accept ma start) s pos [] = Some (e, m) ->
  pos <= e <= pos + length s /\ (ma = true -> e <> start).
Proof.
  intros H. apply match_reaches in H.
  destruct H as (w & s' & m' & -> & H). unfold accept in H.
  destruct (ma && (pos + length w =? start))%bool eqn:B; [discriminate|].
  injection H as <- _. rewrite length_app. split; [lia|].
  intros ->. cbn [andb] in B. apply Nat.eqb_neq in B. exact B.
Qed.

Lemma search_end c : forall s pos ma b e m,
  sre_search c s pos ma = Some (b, e, m) ->
  pos <= b <= e /\ e <= pos + length s /\ (ma = true -> e <> pos).
Proof.
  induction s as [|x s IH]; intros pos ma b e m H; cbn [sre_search] in H.
  - destruct (sre_match c (accept ma pos) [] pos []) as [[e' m']|] eqn:M;
      [|discriminate].
    injection H as <- <- <-. apply match_end in M. destruct M as [M1 M2].
    repeat split; try lia; exact M2.
  - destruct (sre_match c (accept ma pos) (x :: s) pos []) as [[e' m']|] eqn:M.
    + injection H as <- <- <-. apply match_end in M. destruct M as [M1 M2].
      repeat split; try lia; exact M2.
    + apply IH in H. cbn [length]. destruct H as (H1 & H2 & _).
      repeat split; try lia.
Qed.

(** More fuel than [2 * (len - start) + 2] changes nothing: the loop has
    ended by then. *)
Lemma findall_loop_fuel p html : forall fuel1 fuel2 start (ma : bool),
  start <= length html ->
  2 * (length html - start) + (if ma then 0 else 1) < fuel1 ->
  2 * (length html - start) + (if ma then 0 else 1) < fuel2 ->
  findall_loop fuel1 p html start ma = findall_loop fuel2 p html start ma.
Proof.
  induction fuel1 as [|fuel1 IH]; intros fuel2 start ma Hs H1 H2; [lia|].
  destruct fuel2 as [|fuel2]; [lia|]. cbn [findall_loop].
  destruct (sre_search (code p) (skipn start html) start ma)
    as [[[b e] m]|] eqn:S; [|reflexivity].
  apply search_end in S. rewrite length_skipn in S.
  destruct S as (Hb & He & Hma). f_equal.
  destruct (e =? b) eqn:E.
  - apply Nat.eqb_eq in E. subst b.
    destruct (Nat.eq_dec e start) as [->|Hne].
    + destruct ma; [exfalso; apply Hma; reflexivity|].
      apply IH; [lia | cbn; lia | cbn; lia].
    + apply IH; [lia | destruct ma; cbn; lia | destruct ma; cbn; lia].
  - apply Nat.eqb_neq in E.
    apply IH; [lia | destruct ma; cbn; lia | destruct ma; cbn; lia].
Qed.

Lemma findall_fuel p html extra :
  findall_loop (2 * length html + 3 + extra) p html 0 false = findall p html.
Proof.
  unfold findall. apply findall_loop_fuel; cbn; lia.
Qed.

(** ** The capturing end of both patterns *)

(** [([^c]+)] followed by a literal that starts with [c]: the group is the
    run up to the first [c], which must not be empty. *)
Lemma match_group c cl k s pos m :
  sre_match ([MARK 0; MAX_REPEAT 1 (NOT_LITERAL c); MARK 1] ++ lits (c :: cl))
            k s pos m =
  let (text, s3) := upto c s in
  if 1 <=? length text then
    match strip_prefix (c :: cl) s3 with
    | Some s4 =>
      k s4 (pos + length text + length (c :: cl))
        (set_mark 1 (pos + length text) (set_mark 0 pos m))
    | None => None
    end
  else None.
Proof.
  cbn [app sre_match].
  rewrite max_repeat_upto by (apply requires_mark, requires_at).
  destruct (upto c s) as [text s3].
  destruct (1 <=? length text); [|reflexivity].
  cbn [sre_match].
  rewrite <- (app_nil_r (lits (c :: cl))) at 1.
  rewrite match_lits. reflexivity.
Qed.

Lemma match_capture_tail k s pos m :
  sre_match capture_tail k s pos m =
  let (text, s3) := upto 60%N s in
  if 1 <=? length text then
    match strip_prefix anchor_close s3 with
    | Some s4 =>
      k s4 (pos + length text + length anchor_close)
        (set_mark 1 (pos + length text) (set_mark 0 pos m))
    | None => None
    end
  else None.
Proof. exact (match_group 60%N [47; 97; 62]%N k s pos m). Qed.

Lemma accept_Some ma start s pos m r :
  accept ma start s pos m = Some r -> r = (pos, m).
Proof.
  unfold accept. destruct (ma && (pos =? start))%bool; congruence.
Qed.

Section CapturedText.

(** A pattern with one group that ends in [([^<]+)</a>]. *)
Variables (p : Pattern) (pre : list op).
Hypothesis Hcode : code p = pre ++ capture_tail.
Hypothesis Hgroups : groups p = 1.
Variable html : str.

Lemma match_item s pos ma e m :
  s = skipn pos html ->
  sre_match (code p) (accept ma pos) s pos [] = Some (e, m) ->
  captured_ok (item p html pos e m).
Proof.
  intros Hs H. rewrite Hcode, match_app in H.
  apply match_reaches in H. destruct H as (w & s' & m' & -> & H).
  rewrite match_capture_tail in H.
  destruct (upto 60%N s') as [text s3] eqn:U.
  apply upto_spec in U. destruct U as (-> & Hno & _).
  destruct (1 <=? length text) eqn:L1; [|discriminate].
  destruct (strip_prefix anchor_close s3); [|discriminate].
  apply accept_Some in H. injection H as _ ->.
  unfold item. rewrite Hgroups. simpl.
  rewrite (@slice_at html pos w text s3) by (symmetry; exact Hs).
  split; [|exact Hno].
  destruct text; [discriminate | discriminate].
Qed.

Lemma search_item : forall s pos ma b e m,
  s = skipn pos html ->
  sre_search (code p) s pos ma = Some (b, e, m) ->
  captured_ok (item p html b e m).
Proof.
  induction s as [|x s IH]; intros pos ma b e m Hs H; simpl in H.
  - destruct (sre_match (code p) (accept ma pos) [] pos []) as [[e' m']|] eqn:Hm;
      [|discriminate].
    injection H as <- <- <-. eapply match_item; eauto.
  - destruct (sre_match (code p) (accept ma pos) (x :: s) pos [])
      as [[e' m']|] eqn:Hm.
    + injection H as <- <- <-. eapply match_item; eauto.
    + eapply IH; [|exact H]. symmetry. eapply skipn_cons_tl. symmetry; exact Hs.
Qed.

Lemma findall_loop_items : forall fuel start ma,
  Forall captured_ok (findall_loop fuel p html start ma).
Proof.
  induction fuel as [|fuel IH]; intros start ma; simpl; [constructor|].
  destruct (sre_search (code p) (skipn start html) start ma)
    as [[[b e] m]|] eqn:Hs; [|constructor].
  constructor; [|apply IH].
  eapply search_item; [reflexivity | exact Hs].
Qed.

Lemma findall_items : Forall captured_ok (findall p html).
Proof. apply findall_loop_items. Qed.

End CapturedText.

(** ** The primary pattern against the specification's anchors *)

Lemma titleline_open_eq :
  titleline_open =
  [60; 115; 112; 97; 110; 32; 99; 108; 97; 115; 115; 61; 34; 116; 105; 116;
   108; 101; 108; 105; 110; 101; 34]%N ++ 62%N :: [60; 97]%N.
Proof. reflexivity. Qed.

Lemma anchor_close_eq : anchor_close = [60; 47; 97; 62]%N.
Proof. reflexivity. Qed.

(** The matcher on the primary pattern is the specification's test. *)
Lemma match_primary k s pos m :
  sre_match (code primary) k s pos m =
  match strip_prefix titleline_open s with
  | None => None
  | Some s1 =>
    let (a, r) := upto 62%N s1 in
    match r with
    | [] => None
    | _ :: s2 =>
      let p2 := S (pos + length titleline_open + length a) in
      let (text, s3) := upto 60%N s2 in
      if 1 <=? length text then
        match strip_prefix anchor_close s3 with
        | Some s4 =>
          k s4 (p2 + length text + length anchor_close)
            (set_mark 1 (p2 + length text) (set_mark 0 p2 m))
        | None => None
        end
      else None
    end
  end.
Proof.
  unfold primary, primary_head. cbn [code].
  rewrite <- app_assoc, match_lits.
  destruct (strip_prefix titleline_open s) as [s1|]; [|reflexivity].
  cbn [app sre_match].
  rewrite max_repeat_upto by apply requires_at.
  destruct (upto 62%N s1) as [a r] eqn:U.
  apply upto_spec in U. destruct U as (_ & _ & [->|[r' ->]]); [reflexivity|].
  cbn [Nat.leb]. cbn [sre_match accepts]. unfold char_eqb at 1.
  rewrite N.eqb_refl.
  apply (match_capture_tail k r').
Qed.

Lemma spec_anchor_Some s text :
  spec_anchor s = Some text ->
  exists a rest, anchor_shape s a text rest.
Proof.
  unfold spec_anchor.
  destruct (strip_prefix titleline_open s) as [s1|] eqn:P; [|discriminate].
  apply strip_prefix_Some in P. subst s.
  destruct (upto 62%N s1) as [a r] eqn:U.
  apply upto_spec in U. destruct U as (-> & Ha & [->|[r' ->]]);
    cbn [snd]; [discriminate|].
  destruct (upto 60%N r') as [t s3] eqn:U2.
  apply upto_spec in U2. destruct U2 as (-> & Ht & _).
  destruct t as [|c t]; [discriminate|].
  destruct (strip_prefix anchor_close s3) as [s4|] eqn:C;
    [|intros; discriminate].
  apply strip_prefix_Some in C. subst s3.
  intros [= <-]. exists a, s4. repeat split; auto. discriminate.
Qed.

Lemma spec_anchor_shape s a text rest :
  anchor_shape s a text rest -> spec_anchor s = Some text.
Proof.
  intros (-> & Ha & Hne & Ht). unfold spec_anchor.
  rewrite strip_prefix_app, upto_app by exact Ha. simpl snd. cbv iota.
  rewrite anchor_close_eq. simpl app.
  rewrite upto_app by exact Ht.
  destruct text as [|c t]; [congruence|].
  change (60%N :: 47%N :: 97%N :: 62%N :: rest)
    with ([60; 47; 97; 62]%N ++ rest).
  rewrite strip_prefix_app. reflexivity.
Qed.

(** What the matcher answers on a subject that starts with an anchor. *)
Lemma match_primary_shape ma start s pos a text rest :
  anchor_shape s a text rest ->
  sre_match (code primary) (accept ma start) s pos [] =
  if (ma && (S (pos + length titleline_open + length a) + length text
             + length anchor_close =? start))%bool
  then None
  else
    let p2 := S (pos + length titleline_open + length a) in
    Some (p2 + length text + length anchor_close,
          [(1, p2 + length text); (0, p2)]).
Proof.
  intros (-> & Ha & Hne & Ht). rewrite match_primary.
  rewrite strip_prefix_app, upto_app by exact Ha.
  rewrite anchor_close_eq. simpl app.
  rewrite upto_app by exact Ht.
  destruct text as [|c t]; [congruence|]. cbn [length Nat.leb].
  change (60%N :: 47%N :: 97%N :: 62%N :: rest)
    with ([60; 47; 97; 62]%N ++ rest).
  rewrite strip_prefix_app. reflexivity.
Qed.

Lemma match_primary_None k s pos m :
  spec_anchor s = None -> sre_match (code primary) k s pos m = None.
Proof.
  intros H. rewrite match_primary. unfold spec_anchor in H.
  destruct (strip_prefix titleline_open s) as [s1|]; [|reflexivity].
  destruct (upto 62%N s1) as [a r]. cbn [snd] in H.
  destruct r as [|x s2]; [reflexivity|].
  destruct (upto 60%N s2) as [text s3].
  destruct text as [|c t]; [reflexivity|]. cbn [length Nat.leb].
  destruct (strip_prefix anchor_close s3); [discriminate | reflexivity].
Qed.

(** *** No anchor starts inside another one *)

Lemma spec_titles_cons x s :
  spec_titles (x :: s) =
  match spec_anchor (x :: s) with
  | Some t => t :: spec_titles s
  | None => spec_titles s
  end.
Proof. reflexivity. Qed.

Lemma quiet_app w1 : forall w2 rest,
  quiet w1 (w2 ++ rest) -> quiet w2 rest -> quiet (w1 ++ w2) rest.
Proof.
  induction w1 as [|x w1 IH]; intros w2 rest H1 H2; simpl in *.
  - exact H2.
  - destruct H1 as [H1 H1']. split; [|apply IH; assumption].
    rewrite <- app_assoc. exact H1.
Qed.

Lemma quiet_titles w : forall rest,
  quiet w rest -> spec_titles (w ++ rest) = spec_titles rest.
Proof.
  induction w as [|x w IH]; intros rest H; simpl in H.
  - reflexivity.
  - destruct H as [H H']. change ((x :: w) ++ rest) with (x :: w ++ rest) in *.
    rewrite spec_titles_cons, H. apply IH. exact H'.
Qed.

Lemma spec_anchor_hd c s : c <> 60%N -> spec_anchor (c :: s) = None.
Proof.
  intros Hc. unfold spec_anchor. rewrite titleline_open_eq.
  cbn [app strip_prefix].
  destruct (char_eqb 60%N c) eqn:E; [|reflexivity].
  apply char_eqb_eq in E. congruence.
Qed.

Lemma spec_anchor_nil : spec_anchor [] = None.
Proof. reflexivity. Qed.

(** Before the [>] that closes the tag no anchor can start: its own [>]
    would have to be that one, and then the text would start with [<]. *)
Lemma no_anchor_in_tag a text X :
  ~ In 62%N a -> captured_ok text ->
  spec_anchor (a ++ 62%N :: text ++ X) = None.
Proof.
  intros Ha [Hne Ht].
  destruct (spec_anchor (a ++ 62%N :: text ++ X)) as [t|] eqn:A;
    [exfalso | reflexivity].
  apply spec_anchor_Some in A. destruct A as (a2 & rest2 & E & Ha2 & _).
  rewrite titleline_open_eq, <- app_assoc in E.
  change ((62%N :: [60; 97]%N) ++ a2 ++ 62%N :: t ++ anchor_close ++ rest2)
    with (62%N :: 60%N :: 97%N :: a2 ++ 62%N :: t ++ anchor_close ++ rest2)
    in E.
  apply first_occurrence in E; [|exact Ha|].
  - destruct E as [_ E]. destruct text as [|c text]; [congruence|].
    injection E as -> _. apply Ht. left. reflexivity.
  - simpl. intros H.
    repeat (destruct H as [H|H]; [discriminate H|]). exact H.
Qed.

Lemma quiet_tag a : forall text X,
  ~ In 62%N a -> captured_ok text -> quiet a (62%N :: text ++ X).
Proof.
  induction a as [|y a IH]; intros text X Ha Ht; simpl.
  - exact I.
  - split.
    + apply (no_anchor_in_tag (y :: a) X Ha Ht).
    + apply IH; [|exact Ht]. intros H. apply Ha. right. exact H.
Qed.

Lemma quiet_text text : forall X, ~ In 60%N text -> quiet text X.
Proof.
  induction text as [|c text IH]; intros X Ht; simpl.
  - exact I.
  - split.
    + apply spec_anchor_hd. intros ->. apply Ht. left. reflexivity.
    + apply IH. intros H. apply Ht. right. exact H.
Qed.

Lemma quiet_open X : quiet (tl titleline_open) X.
Proof.
  rewrite titleline_open_eq. cbn [app tl quiet].
  repeat split.
Qed.

Lemma quiet_close X : quiet anchor_close X.
Proof.
  rewrite anchor_close_eq. cbn [quiet]. repeat split.
Qed.

(** After the first character of an anchor, nothing starts before its end. *)
Lemma anchor_quiet s a text rest :
  anchor_shape s a text rest ->
  exists x w, s = x :: w ++ rest /\ quiet w rest
    /\ length (x :: w)
       = length titleline_open + length a + 1 + length text
         + length anchor_close.
Proof.
  intros (-> & Ha & Ht).
  exists 60%N, (tl titleline_open ++ a ++ 62%N :: text ++ anchor_close).
  split; [|split].
  - rewrite titleline_open_eq. cbn [app tl].
    repeat apply f_equal.
    rewrite <- app_assoc, <- app_comm_cons, <- app_assoc. reflexivity.
  - apply quiet_app; [apply quiet_open|].
    apply quiet_app.
    + change ((62%N :: text ++ anchor_close) ++ rest)
        with (62%N :: (text ++ anchor_close) ++ rest).
      rewrite <- app_assoc. apply quiet_tag; assumption.
    + change (62%N :: text ++ anchor_close)
        with ([62%N] ++ text ++ anchor_close).
      apply quiet_app.
      * cbn [quiet]. split; [|exact I].
        rewrite <- app_assoc.
        apply (no_anchor_in_tag [] (anchor_close ++ rest)); [intros []|exact Ht].
      * apply quiet_app; [apply quiet_text, Ht | apply quiet_close].
  - rewrite titleline_open_eq. cbn [tl app length].
    rewrite !length_app. cbn [length]. rewrite !length_app. lia.
Qed.

(** *** The search and the loop *)

Section PrimaryLoop.

Variable html : str.

Lemma search_primary : forall s pos ma,
  s = skipn pos html ->
  match sre_search (code primary) s pos ma with
  | None => spec_titles s = []
  | Some (b, e, m) =>
    pos < e /\ e - pos <= length s
    /\ spec_titles s = item primary html b e m :: spec_titles (skipn (e - pos) s)
  end.
Proof.
  induction s as [|x s IH]; intros pos ma Hs.
  - cbn [sre_search]. rewrite match_primary_None by apply spec_anchor_nil.
    reflexivity.
  - cbn [sre_search]. rewrite spec_titles_cons.
    destruct (spec_anchor (x :: s)) as [text|] eqn:A.
    + apply spec_anchor_Some in A. destruct A as (a & rest & Sh).
      rewrite (match_primary_shape ma pos pos Sh).
      set (p2 := S (pos + length titleline_open + length a)).
      replace (p2 + length text + length anchor_close =? pos) with false
        by (symmetry; apply Nat.eqb_neq; unfold p2; lia).
      rewrite andb_false_r. cbv beta iota zeta.
      destruct (anchor_quiet Sh) as (x' & w & E & Q & L).
      injection E as <- ->.
      assert (D : p2 + length text + length anchor_close - pos
                  = length (x :: w)) by (rewrite L; unfold p2; lia).
      rewrite D. split; [unfold p2; lia|]. split.
      * cbn [length]. rewrite length_app. lia.
      * f_equal.
        -- destruct Sh as (E & _). unfold item.
           cbn [primary groups Nat.eqb get_mark].
           assert (P2 : p2 = pos + length (titleline_open ++ a ++ [62%N]))
             by (unfold p2; rewrite !length_app; cbn [length]; lia).
           rewrite P2. symmetry. apply slice_at with (rest := anchor_close ++ rest).
           rewrite <- Hs, E, <- !app_assoc. reflexivity.
        -- change (x :: w ++ rest) with ((x :: w) ++ rest).
           rewrite skipn_app, skipn_all, Nat.sub_diag. cbn [app skipn].
           apply quiet_titles. exact Q.
    + rewrite match_primary_None by exact A.
      assert (Hs' : s = skipn (S pos) html)
        by (symmetry; eapply skipn_cons_tl; symmetry; exact Hs).
      specialize (IH (S pos) false Hs').
      destruct (sre_search (code primary) s (S pos) false) as [[[b e] m]|].
      * destruct IH as (Hlt & Hle & IH). split; [lia|]. split.
        -- cbn [length]. lia.
        -- rewrite IH. f_equal.
           replace (e - pos) with (S (e - S pos)) by lia. reflexivity.
      * exact IH.
Qed.

Lemma findall_loop_primary : forall fuel start ma,
  length (skipn start html) < fuel ->
  findall_loop fuel primary html start ma = spec_titles (skipn start html).
Proof.
  induction fuel as [|fuel IH]; intros start ma Hf; [lia|].
  cbn [findall_loop].
  pose proof (@search_primary (skipn start html) start ma eq_refl) as H.
  destruct (sre_search (code primary) (skipn start html) start ma)
    as [[[b e] m]|].
  - destruct H as (Hlt & Hle & ->). f_equal.
    assert (E : skipn (e - start) (skipn start html) = skipn e html)
      by (rewrite skipn_add; f_equal; lia).
    rewrite E. apply IH.
    rewrite <- E, length_skipn. lia.
  - symmetry. exact H.
Qed.

(** [re.findall] with the primary pattern returns the titles of the
    well-formed anchors of the document, in document order. *)
Lemma findall_primary : findall primary html = spec_titles html.
Proof.
  unfold findall. rewrite findall_loop_primary; [reflexivity|].
  cbn [skipn]. lia.
Qed.

End PrimaryLoop.

(** ** Running the script *)

Lemma re_findall_primary html t :
  re_findall pattern html [] t
  = (Return (primary_matches html), t ++ [Findall pattern []]).
Proof.
  unfold re_findall, bind, emit, primary_matches, matches_of.
  rewrite pattern_compiles. reflexivity.
Qed.

Lemma re_findall_fallback html t :
  re_findall pattern2 html [DOTALL] t
  = (Return (fallback_matches html), t ++ [Findall pattern2 [DOTALL]]).
Proof.
  unfold re_findall, bind, emit, fallback_matches, matches_of.
  rewrite pattern2_compiles. reflexivity.
Qed.

Lemma extractor_run html t :
  extractor html t =
  match primary_matches html with
  | [] => (Return (fallback_matches html),
           t ++ [Findall pattern []; PrintTo stdout msg_fallback;
                 Findall pattern2 [DOTALL]])
  | ts => (Return ts, t ++ [Findall pattern []])
  end.
Proof.
  unfold extractor, bind at 1. rewrite re_findall_primary.
  destruct (primary_matches html) as [|t1 ts]; [|reflexivity].
  unfold bind, print, emit. rewrite re_findall_fallback, <- !app_assoc.
  reflexivity.
Qed.

Lemma for_enumerate_run titles : forall start t,
  for_enumerate start titles (fun i title => print stdout (msg_title i title)) t
  = (Return tt,
     t ++ map (fun it => PrintTo stdout (msg_title (fst it) (snd it)))
              (enumerate start titles)).
Proof.
  induction titles as [|x titles IH]; intros start t; cbn [for_enumerate].
  - unfold ret. cbn. rewrite app_nil_r. reflexivity.
  - unfold bind, print, emit. rewrite IH, <- app_assoc. reflexivity.
Qed.

Lemma presenter_run titles t :
  presenter titles t = (Return tt, t ++ presented titles).
Proof.
  destruct titles as [|x titles]; [reflexivity|].
  unfold presenter, presented, bind, print, emit.
  rewrite for_enumerate_run, <- app_assoc. reflexivity.
Qed.

Lemma extractor_events html :
  events (extractor html) =
  match primary_matches html with
  | [] => [Findall pattern []; PrintTo stdout msg_fallback;
           Findall pattern2 [DOTALL]]
  | _ => [Findall pattern []]
  end.
Proof.
  unfold events. rewrite extractor_run.
  destruct (primary_matches html); reflexivity.
Qed.

Lemma extractor_returns html t :
  extractor html t = (Return (extracted html), t ++ events (extractor html)).
Proof.
  rewrite extractor_events, extractor_run. unfold extracted.
  destruct (primary_matches html); reflexivity.
Qed.

Lemma fetcher_run w t :
  fetcher w t =
  (match http w req 10 with
   | inl e => Raise e
   | inr body =>
     match utf8_decode body with
     | Some html => Return html
     | None => Raise (UnicodeDecodeError w body)
     end
   end, t ++ [Urlopen req 10]).
Proof.
  unfold fetcher, urlopen_read, bind, emit, decode.
  destruct (http w req 10) as [e|body]; [reflexivity|].
  unfold ret. destruct (utf8_decode body); reflexivity.
Qed.

(** The [try] block raises exactly what the fetcher raises. *)
Lemma try_block_run w t :
  try_block w t =
  match http w req 10 with
  | inl e => (Raise e, t ++ [Urlopen req 10])
  | inr body =>
    match utf8_decode body with
    | None => (Raise (UnicodeDecodeError w body), t ++ [Urlopen req 10])
    | Some html =>
      (Return tt,
       t ++ Urlopen req 10
         :: events (extractor html) ++ presented (extracted html))
    end
  end.
Proof.
  unfold try_block, bind at 1. rewrite fetcher_run.
  destruct (http w req 10) as [e|body]; [reflexivity|].
  destruct (utf8_decode body) as [html|]; [|reflexivity].
  unfold bind. rewrite extractor_returns, presenter_run, <- !app_assoc.
  reflexivity.
Qed.

(** The three ways a run can go. *)
Lemma run_eq w :
  run w =
  match http w req 10 with
  | inl e =>
    {| trace := [Urlopen req 10; PrintTo stderr (msg_error e)];
       exit_code := 1 |}
  | inr body =>
    match utf8_decode body with
    | None =>
      {| trace := [Urlopen req 10;
                   PrintTo stderr (msg_error (UnicodeDecodeError w body))];
         exit_code := 1 |}
    | Some html =>
      {| trace := Urlopen req 10
                  :: events (extractor html) ++ presented (extracted html);
         exit_code := 0 |}
    end
  end.
Proof.
  unfold run, script, try_except. rewrite try_block_run.
  destruct (http w req 10) as [e|body]; [reflexivity|].
  destruct (utf8_decode body) as [html|]; reflexivity.
Qed.

(** ** [str.strip] *)

Lemma lstrip_spec s :
  exists l, s = l ++ lstrip s /\ all_space l
            /\ (forall c, hd_error (lstrip s) = Some c -> isspace c = false).
Proof.
  induction s as [|x s (l & E & Hl & Hh)]; cbn [lstrip].
  - exists []. repeat split; [constructor | discriminate].
  - destruct (isspace x) eqn:X.
    + exists (x :: l). cbn [app]. rewrite <- E.
      repeat split; [constructor; assumption | exact Hh].
    + exists []. repeat split; [constructor|].
      intros c [= <-]. exact X.
Qed.

Lemma hd_error_app_l (a b : str) c :
  hd_error a = Some c -> hd_error (a ++ b) = Some c.
Proof. destruct a; [discriminate | exact (fun H => H)]. Qed.

Lemma all_space_rev l : all_space l -> all_space (rev l).
Proof. apply Forall_rev. Qed.

(** [strip] removes whitespace, all of it, from both ends and nothing
    else. *)
Lemma strip_spec s :
  exists l r, s = l ++ strip s ++ r /\ all_space l /\ all_space r
              /\ no_edge_space (strip s).
Proof.
  destruct (lstrip_spec s) as (l & E & Hl & Hh).
  destruct (lstrip_spec (rev (lstrip s))) as (r & E' & Hr & Hh').
  exists l, (rev r). unfold strip, rstrip.
  assert (Eu : lstrip s = rev (lstrip (rev (lstrip s))) ++ rev r).
  { rewrite <- rev_app_distr, <- E', rev_involutive. reflexivity. }
  split; [rewrite <- Eu; exact E|].
  split; [exact Hl|]. split; [apply all_space_rev; exact Hr|].
  split.
  - intros c Hc. apply Hh. rewrite Eu. apply hd_error_app_l. exact Hc.
  - intros c Hc. rewrite rev_involutive in Hc. apply Hh'. exact Hc.
Qed.

(** ** [str(n)], [written], [lines] *)

Lemma digits_are_digits fuel : forall n acc,
  Forall is_digit acc -> Forall is_digit (digits fuel n acc).
Proof.
  induction fuel as [|fuel IH]; intros n acc Ha; cbn [digits]; [exact Ha|].
  assert (Hd : Forall is_digit ((48 + N.of_nat (n mod 10))%N :: acc)).
  { constructor; [|exact Ha]. unfold is_digit.
    pose proof (Nat.mod_upper_bound n 10). lia. }
  destruct (n / 10 =? 0); [exact Hd | apply IH; exact Hd].
Qed.

Lemma str_of_nat_digits n : Forall is_digit (str_of_nat n).
Proof. apply digits_are_digits. constructor. Qed.

Lemma str_of_nat_no_lf n : ~ In 10%N (str_of_nat n).
Proof.
  intros H. pose proof (str_of_nat_digits n) as D.
  rewrite Forall_forall in D. apply D in H. unfold is_digit in H. lia.
Qed.

Lemma written_app f t1 : forall t2,
  written f (t1 ++ t2) = written f t1 ++ written f t2.
Proof.
  induction t1 as [|ev t1 IH]; intros t2; cbn [app written]; [reflexivity|].
  destruct ev as [r z|pt fl|f' text]; try apply IH.
  destruct (stream_eqb f' f); [|apply IH].
  rewrite IH, <- app_assoc. reflexivity.
Qed.

Lemma written_stdout_prints (g : nat * str -> str) l :
  written stdout (map (fun it => PrintTo stdout (g it)) l)
  = List.concat (map (fun it => g it ++ [10%N]) l).
Proof.
  induction l as [|it l IH]; cbn [map written List.concat stream_eqb];
    [reflexivity|].
  rewrite IH, <- app_assoc. reflexivity.
Qed.

Lemma written_stderr_prints (g : nat * str -> str) l :
  written stderr (map (fun it => PrintTo stdout (g it)) l) = [].
Proof. induction l as [|it l IH]; cbn [map written stream_eqb]; auto. Qed.

Lemma lines_aux_line l : forall cur rest,
  ~ In 10%N l ->
  lines_aux cur (l ++ 10%N :: rest) = (rev cur ++ l) :: lines_aux [] rest.
Proof.
  induction l as [|c l IH]; intros cur rest Hl; cbn [app lines_aux].
  - unfold char_eqb. rewrite N.eqb_refl, app_nil_r. reflexivity.
  - destruct (char_eqb c 10%N) eqn:E.
    + apply char_eqb_eq in E. exfalso. apply Hl. left. auto.
    + rewrite IH by (intros H; apply Hl; right; exact H).
      cbn [rev]. rewrite <- app_assoc. reflexivity.
Qed.

Lemma lines_line l rest :
  ~ In 10%N l -> lines (l ++ 10%N :: rest) = l :: lines rest.
Proof. intros H. unfold lines. rewrite lines_aux_line by exact H. reflexivity. Qed.

Lemma lines_concat (ls : list str) :
  Forall (fun l => ~ In 10%N l) ls ->
  lines (List.concat (map (fun l => l ++ [10%N]) ls)) = ls.
Proof.
  induction 1 as [|l ls Hl _ IH]; cbn [map List.concat]; [reflexivity|].
  rewrite <- app_assoc. cbn [app]. rewrite lines_line by exact Hl.
  rewrite IH. reflexivity.
Qed.

(** ** [enumerate] *)

Lemma enumerate_fst {A} (xs : list A) : forall start,
  map fst (enumerate start xs) = seq start (length xs).
Proof.
  induction xs as [|x xs IH]; intros start; cbn; [reflexivity|].
  rewrite IH. reflexivity.
Qed.

Lemma enumerate_snd {A} (xs : list A) : forall start,
  map snd (enumerate start xs) = xs.
Proof.
  induction xs as [|x xs IH]; intros start; cbn; [reflexivity|].
  rewrite IH. reflexivity.
Qed.

Lemma enumerate_length {A} (xs : list A) start :
  length (enumerate start xs) = length xs.
Proof. rewrite <- (length_map fst), enumerate_fst. apply length_seq. Qed.

Lemma msg_count_eq n : msg_count n = count_line n ++ [10%N].
Proof. unfold msg_count, count_line. rewrite <- !app_assoc. reflexivity. Qed.

Lemma not_in_existsb (c : char) l : existsb (char_eqb c) l = false -> ~ In c l.
Proof.
  intros H Hin. assert (existsb (char_eqb c) l = true); [|congruence].
  apply existsb_exists. exists c. split; [exact Hin | apply N.eqb_refl].
Qed.

Lemma count_line_no_lf n : ~ In 10%N (count_line n).
Proof.
  unfold count_line. intros H.
  apply in_app_or in H. destruct H as [H|H];
    [revert H; apply not_in_existsb; reflexivity|].
  apply in_app_or in H. destruct H as [H|H];
    [exact (str_of_nat_no_lf n H) | revert H; apply not_in_existsb; reflexivity].
Qed.

Lemma title_line_no_lf it : ~ In 10%N (strip (snd it)) -> ~ In 10%N (title_line it).
Proof.
  unfold title_line. intros Hs H.
  apply in_app_or in H. destruct H as [H|H]; [exact (str_of_nat_no_lf _ H)|].
  apply in_app_or in H. destruct H as [H|H]; [|exact (Hs H)].
  revert H. apply not_in_existsb. reflexivity.
Qed.

Lemma title_lines_no_lf titles : forall start,
  Forall (fun t => ~ In 10%N (strip t)) titles ->
  Forall (fun l => ~ In 10%N l) (map title_line (enumerate start titles)).
Proof.
  induction titles as [|x titles IH]; intros start H; cbn [enumerate map];
    [constructor|].
  inversion H; subst. constructor; [|apply IH; assumption].
  apply title_line_no_lf. assumption.
Qed.

Lemma app_neq (l x : str) : l <> [] -> l ++ x <> x.
Proof.
  intros Hl E. apply (f_equal (@List.length char)) in E.
  rewrite length_app in E. destruct l; [congruence | cbn in E; lia].
Qed.

Lemma presented_eq x rest :
  presented (x :: rest)
  = PrintTo stdout (count_line (length (x :: rest)) ++ [10%N])
    :: map (fun it => PrintTo stdout (title_line it)) (enumerate 1 (x :: rest)).
Proof. unfold presented. rewrite msg_count_eq. reflexivity. Qed.

Lemma presenter_events titles : events (presenter titles) = presented titles.
Proof. unfold events. rewrite presenter_run. reflexivity. Qed.

Lemma written_stderr_presented titles : written stderr (presented titles) = [].
Proof.
  destruct titles as [|x rest]; [reflexivity|].
  rewrite presented_eq. cbn [written stream_eqb].
  apply written_stderr_prints.
Qed.

Lemma written_stderr_extractor html :
  written stderr (events (extractor html)) = [].
Proof. rewrite extractor_events. destruct (primary_matches html); reflexivity. Qed.

Lemma urlopen_presented titles : filter is_urlopen (presented titles) = [].
Proof.
  destruct titles as [|x rest]; [reflexivity|].
  rewrite presented_eq. cbn [filter is_urlopen].
  induction (enumerate 1 (x :: rest)) as [|it l IH]; [reflexivity | exact IH].
Qed.

Lemma urlopen_extractor html : filter is_urlopen (events (extractor html)) = [].
Proof. rewrite extractor_events. destruct (primary_matches html); reflexivity. Qed.

(* ===================================================================== *)
(** * The specification, statement by statement *)
(* ===================================================================== *)

(** ** Extractor *)

(** C2.  The extractor applies the fallback pattern if and only if the
    primary pattern yields no match; then its result is the matches of the
    fallback pattern; otherwise the fallback is not applied and the result
    is the matches of the primary pattern. *)
Theorem fallback_iff_primary_empty (html : str) (t : list event) :
  extractor html t =
  match primary_matches html with
  | [] => (Return (fallback_matches html),
           t ++ [Findall pattern []; PrintTo stdout msg_fallback;
                 Findall pattern2 [DOTALL]])
  | m :: ms => (Return (m :: ms), t ++ [Findall pattern []])
  end
  /\ (In (Findall pattern2 [DOTALL]) (events (extractor html))
      <-> primary_matches html = []).
Proof.
  split; [apply extractor_run|].
  rewrite extractor_events.
  destruct (primary_matches html) as [|m ms]; split; intros H.
  - reflexivity.
  - right. right. left. reflexivity.
  - destruct H as [H|[]]. vm_compute in H. discriminate H.
  - discriminate H.
Qed.

Lemma fallback_iff_primary_empty_witness :
  In (Findall pattern2 [DOTALL]) (events (extractor (py nested_html))).
Proof.
  apply (proj2 (proj2 (fallback_iff_primary_empty (py nested_html) []))).
  vm_compute. reflexivity.
Defined.

(** C10.  Every title the extractor produces, from either pattern, is a
    non-empty string without [<].  A title that is all whitespace is
    trimmed to the empty string at presentation, and its line is then the
    bare index prefix. *)
Theorem captured_titles_nonempty_no_lt :
  (forall html,
      Forall captured_ok (primary_matches html)
      /\ Forall captured_ok (fallback_matches html)
      /\ Forall captured_ok (extracted html))
  /\ (forall i t, all_space t ->
         strip t = [] /\ msg_title i t = str_of_nat i ++ py ". ")
  /\ (extracted (py blank_html) = [py " "]
      /\ presented (extracted (py blank_html))
         = [PrintTo stdout (msg_count 1); PrintTo stdout (py "1. ")]).
Proof.
  split; [|split].
  - intros html.
    assert (P : Forall captured_ok (primary_matches html))
      by (rewrite primary_matches_eq;
          apply findall_items with (pre := primary_head); reflexivity).
    assert (F : Forall captured_ok (fallback_matches html))
      by (rewrite fallback_matches_eq;
          apply findall_items with (pre := fallback_head); reflexivity).
    split; [exact P|]. split; [exact F|].
    unfold extracted. destruct (primary_matches html); assumption.
  - intros i t Ht.
    assert (E : strip t = []).
    { unfold strip, rstrip.
      assert (L : lstrip t = []).
      { induction Ht as [|c t Hc _ IH]; cbn [lstrip]; [reflexivity|].
        rewrite Hc. exact IH. }
      rewrite L. reflexivity. }
    split; [exact E|]. unfold msg_title. rewrite E, app_nil_r. reflexivity.
  - split; vm_compute; reflexivity.
Qed.

Lemma captured_titles_nonempty_no_lt_witness :
  strip (py "   ") = [] /\ msg_title 3 (py "   ") = str_of_nat 3 ++ py ". ".
Proof.
  apply (proj1 (proj2 captured_titles_nonempty_no_lt) 3 (py "   ")).
  repeat constructor.
Defined.

(** ** Presenter *)

(** C5.  Each title line the presenter prints carries the title with all
    its leading and trailing whitespace removed, and nothing else removed.
    The extractor does not trim: a padded anchor text is extracted with its
    padding and loses it only when printed. *)
Theorem presented_titles_are_stripped :
  (forall x rest,
      events (presenter (x :: rest))
      = PrintTo stdout (msg_count (length (x :: rest)))
        :: map (fun it => PrintTo stdout
                            (str_of_nat (fst it) ++ py ". " ++ strip (snd it)))
               (enumerate 1 (x :: rest)))
  /\ (forall t, exists l r,
         t = l ++ strip t ++ r /\ all_space l /\ all_space r
         /\ no_edge_space (strip t))
  /\ (extracted (py padded_html) = [py "  Hello World "]
      /\ presented (extracted (py padded_html))
         = [PrintTo stdout (msg_count 1); PrintTo stdout (py "1. Hello World")]).
Proof.
  split; [|split].
  - intros x rest. rewrite presenter_events. reflexivity.
  - apply strip_spec.
  - split; vm_compute; reflexivity.
Qed.

(** C6, as stated, fails: the count line is followed by an empty line,
    because the text of the header ends with a line feed of its own.  For
    one title the output has three lines, not a header and one line. *)
Lemma blank_line_after_count : ~ header_then_title_lines [py "Hello World"].
Proof.
  intros [header H]. vm_compute in H. discriminate H.
Qed.

(** C6, amended.  For a non-empty sequence of [n] titles the presenter
    writes the count line reporting [n], an empty line, and then [n]
    entries, the i-th being the index [i] (from 1, in sequence order),
    [". "] and the trimmed i-th title, each ended by a line feed; when no
    trimmed title contains a line feed these are exactly [n] lines. *)
Theorem presenter_output (x : str) (rest : list str) :
  written stdout (events (presenter (x :: rest)))
  = count_line (length (x :: rest)) ++ [10; 10]%N
    ++ List.concat (map (fun it => title_line it ++ [10%N])
                        (enumerate 1 (x :: rest)))
  /\ map fst (enumerate 1 (x :: rest)) = seq 1 (length (x :: rest))
  /\ map snd (enumerate 1 (x :: rest)) = x :: rest
  /\ (Forall (fun t => ~ In 10%N (strip t)) (x :: rest) ->
      lines (written stdout (events (presenter (x :: rest))))
      = count_line (length (x :: rest)) :: []
        :: map title_line (enumerate 1 (x :: rest))).
Proof.
  assert (W : written stdout (events (presenter (x :: rest)))
              = count_line (length (x :: rest)) ++ [10; 10]%N
                ++ List.concat (map (fun it => title_line it ++ [10%N])
                                    (enumerate 1 (x :: rest)))).
  { rewrite presenter_events, presented_eq. cbn [written stream_eqb].
    rewrite written_stdout_prints, <- app_assoc. reflexivity. }
  split; [exact W|]. split; [apply enumerate_fst|].
  split; [apply enumerate_snd|].
  intros Hs. rewrite W. cbn [app].
  rewrite lines_line by apply count_line_no_lf.
  change (10%N :: ?l) with ([] ++ 10%N :: l).
  rewrite lines_line by (intros []).
  rewrite <- (map_map title_line (fun l => l ++ [10%N])).
  rewrite lines_concat by (apply title_lines_no_lf; exact Hs).
  reflexivity.
Qed.

Lemma presenter_output_witness :
  lines (written stdout (events (presenter [py "Hello World"; py " b "])))
  = [count_line 2; []; py "1. Hello World"; py "2. b"].
Proof.
  refine (proj2 (proj2 (proj2
            (presenter_output (py "Hello World") [py " b "]))) _).
  repeat constructor; vm_compute; intuition discriminate.
Defined.

(** ** The whole run *)

(** C3, as stated, fails: when neither pattern matches, the "not found"
    message is the second line of the output; the first is the status line
    printed before the fallback pattern is tried. *)
Lemma not_found_message_not_alone : ~ only_not_found (serving no_titles_html).
Proof.
  intros H.
  destruct (H _ (py no_titles_html) eq_refl eq_refl eq_refl eq_refl) as [E _].
  vm_compute in E. discriminate E.
Qed.

(** C3, amended.  On a fetched document on which both patterns yield no
    match, the standard output is the fallback status line followed by the
    "not found" message and nothing else, nothing is written to the error
    stream, and the exit code is 0. *)
Theorem not_found_after_status_line (w : World) (body : bytes) (html : str) :
  http w req 10 = inr body -> utf8_decode body = Some html ->
  primary_matches html = [] -> fallback_matches html = [] ->
  written stdout (trace (run w))
  = msg_fallback ++ [10%N] ++ msg_not_found ++ [10%N]
  /\ written stderr (trace (run w)) = []
  /\ exit_code (run w) = 0%Z.
Proof.
  intros Hh Hd Hp Hf. rewrite run_eq, Hh, Hd. cbn [trace exit_code].
  rewrite extractor_events. unfold extracted. rewrite Hp, Hf.
  repeat split.
Qed.

Lemma not_found_after_status_line_witness :
  written stdout (trace (run (serving no_titles_html)))
  = msg_fallback ++ [10%N] ++ msg_not_found ++ [10%N]
  /\ written stderr (trace (run (serving no_titles_html))) = []
  /\ exit_code (run (serving no_titles_html)) = 0%Z.
Proof.
  apply (@not_found_after_status_line (serving no_titles_html)
           (list_byte_of_string no_titles_html) (py no_titles_html));
    vm_compute; reflexivity.
Defined.

(** C9.  Whenever the primary pattern yields no match, the status line is
    printed on standard output before anything the presenter prints, also
    when the fallback pattern then finds titles; the output of such a run
    is the status line followed by the presenter's output, hence never the
    presenter's output alone. *)
Theorem status_line_before_presenter (w : World) (body : bytes) (html : str) :
  http w req 10 = inr body -> utf8_decode body = Some html ->
  primary_matches html = [] ->
  trace (run w)
  = [Urlopen req 10; Findall pattern []; PrintTo stdout msg_fallback;
     Findall pattern2 [DOTALL]] ++ events (presenter (fallback_matches html))
  /\ written stdout (trace (run w))
     = msg_fallback ++ [10%N]
       ++ written stdout (events (presenter (fallback_matches html)))
  /\ written stdout (trace (run w))
     <> written stdout (events (presenter (fallback_matches html))).
Proof.
  intros Hh Hd Hp.
  assert (T : trace (run w)
              = [Urlopen req 10; Findall pattern []; PrintTo stdout msg_fallback;
                 Findall pattern2 [DOTALL]]
                ++ events (presenter (fallback_matches html))).
  { rewrite run_eq, Hh, Hd. cbn [trace].
    rewrite extractor_events, presenter_events. unfold extracted.
    rewrite Hp. reflexivity. }
  assert (W : written stdout (trace (run w))
              = msg_fallback ++ [10%N]
                ++ written stdout (events (presenter (fallback_matches html)))).
  { rewrite T, written_app. reflexivity. }
  split; [exact T|]. split; [exact W|].
  rewrite W, app_assoc. apply app_neq.
  intros E. apply (f_equal (@List.length char)) in E.
  rewrite length_app in E. cbn in E. lia.
Qed.

Lemma status_line_before_presenter_witness :
  written stdout (trace (run (serving nested_html)))
  = msg_fallback ++ [10%N] ++ count_line 1 ++ [10; 10]%N
    ++ py "1. Nested" ++ [10%N].
Proof.
  refine (eq_trans
    (proj1 (proj2 (@status_line_before_presenter (serving nested_html)
                     (list_byte_of_string nested_html) (py nested_html)
                     _ _ _))) _);
    vm_compute; reflexivity.
Defined.

(** C4.  When the [try] block (fetching, decoding, extracting, presenting)
    raises an exception, the program prints one line, the error prefix
    followed by the text of the exception, on the error stream, prints
    nothing on standard output and exits with code 1; when it raises none,
    nothing is written to the error stream and the exit code is 0 (also
    when no title is found). *)
Theorem failure_prints_error_and_exits_1 (w : World) :
  (forall e t, try_block w [] = (Raise e, t) ->
      trace (run w) = [Urlopen req 10; PrintTo stderr (py "错误: " ++ exc_str e)]
      /\ written stderr (trace (run w)) = py "错误: " ++ exc_str e ++ [10%N]
      /\ written stdout (trace (run w)) = []
      /\ exit_code (run w) = 1%Z)
  /\ (forall x t, try_block w [] = (Return x, t) ->
      written stderr (trace (run w)) = [] /\ exit_code (run w) = 0%Z).
Proof.
  rewrite try_block_run, run_eq.
  destruct (http w req 10) as [e0|body]; [|destruct (utf8_decode body)].
  - split; [intros e t [= <- _] | intros x t [=]].
    cbn [trace exit_code written stream_eqb]. unfold msg_error.
    rewrite <- app_assoc. repeat split.
  - split; [intros e t [=] | intros x t _].
    cbn [trace exit_code written].
    rewrite written_app, written_stderr_extractor, written_stderr_presented.
    split; reflexivity.
  - split; [intros e t [= <- _] | intros x t [=]].
    cbn [trace exit_code written stream_eqb]. unfold msg_error.
    rewrite <- app_assoc. repeat split.
Qed.

Lemma failure_prints_error_and_exits_1_witness :
  (written stderr (trace (run timed_out))
   = py "错误: <urlopen error timed out>" ++ [10%N]
   /\ exit_code (run timed_out) = 1%Z)
  /\ exit_code (run (serving no_titles_html)) = 0%Z.
Proof.
  split.
  - destruct (proj1 (failure_prints_error_and_exits_1 timed_out)
                    {| exc_type := "URLError";
                       exc_str := py "<urlopen error timed out>" |}
                    [Urlopen req 10] eq_refl) as (_ & E & _ & X).
    split; [exact E | exact X].
  - refine (proj2 (proj2 (failure_prints_error_and_exits_1
                            (serving no_titles_html))
                         tt (snd (try_block (serving no_titles_html) [])) _)).
    vm_compute. reflexivity.
Defined.

(* ===================================================================== *)
(** * Further properties of the script *)
(* ===================================================================== *)

(** ** A property of every match is a property of every item *)

Section FindallForall.

Variables (p : Pattern) (html : str) (Q : str -> Prop).

Hypothesis Hmatch : forall s pos ma e m,
  s = skipn pos html ->
  sre_match (code p) (accept ma pos) s pos [] = Some (e, m) ->
  Q (item p html pos e m).

Lemma search_Forall : forall s pos ma b e m,
  s = skipn pos html ->
  sre_search (code p) s pos ma = Some (b, e, m) ->
  Q (item p html b e m).
Proof.
  induction s as [|x s IH]; intros pos ma b e m Hs H; cbn [sre_search] in H.
  - destruct (sre_match (code p) (accept ma pos) [] pos []) as [[e' m']|] eqn:Hm;
      [|discriminate].
    injection H as <- <- <-. eapply Hmatch; eauto.
  - destruct (sre_match (code p) (accept ma pos) (x :: s) pos [])
      as [[e' m']|] eqn:Hm.
    + injection H as <- <- <-. eapply Hmatch; eauto.
    + eapply IH; [|exact H]. symmetry. eapply skipn_cons_tl. symmetry; exact Hs.
Qed.

Lemma findall_loop_Forall : forall fuel start ma,
  Forall Q (findall_loop fuel p html start ma).
Proof.
  induction fuel as [|fuel IH]; intros start ma; cbn [findall_loop];
    [constructor|].
  destruct (sre_search (code p) (skipn start html) start ma)
    as [[[b e] m]|] eqn:Hs; [|constructor].
  constructor; [|apply IH].
  eapply search_Forall; [reflexivity | exact Hs].
Qed.

Lemma findall_Forall : Forall Q (findall p html).
Proof. apply findall_loop_Forall. Qed.

End FindallForall.

(** ** Where a title stands in the document *)

Lemma firstn_skipn_at (html : str) pos s :
  s = skipn pos html -> html = firstn pos html ++ s.
Proof. intros ->. symmetry. apply firstn_skipn. Qed.

Section Enclosure.

(** A pattern with one group whose code is: something, the marker,
    something, [>], and the capturing end. *)
Variables (p : Pattern) (pre1 pre2 : list op).
Hypothesis Hcode :
  code p = pre1 ++ lits titleline_marker ++ pre2
           ++ [AT (LITERAL 62%N)] ++ capture_tail.
Hypothesis Hgroups : groups p = 1.
Variable html : str.

Lemma match_enclosed s pos ma e m :
  s = skipn pos html ->
  sre_match (code p) (accept ma pos) s pos [] = Some (e, m) ->
  enclosed html (item p html pos e m).
Proof.
  intros Hs H. rewrite Hcode, match_app in H.
  apply match_reaches in H. destruct H as (w1 & s1 & m1 & -> & H).
  rewrite match_lits in H.
  destruct (strip_prefix titleline_marker s1) as [s2|] eqn:P; [|discriminate].
  apply strip_prefix_Some in P. subst s1.
  rewrite match_app in H.
  apply match_reaches in H. destruct H as (w2 & s3 & m2 & -> & H).
  cbn [app sre_match] in H.
  destruct s3 as [|x s4]; [discriminate|].
  destruct (accepts (LITERAL 62%N) x) eqn:A; [|discriminate].
  apply char_eqb_eq in A. subst x.
  change (sre_match capture_tail (accept ma pos) s4
            (S (pos + length w1 + length titleline_marker + length w2)) m2
          = Some (e, m)) in H.
  rewrite match_capture_tail in H.
  destruct (upto 60%N s4) as [text s5] eqn:U.
  apply upto_spec in U. destruct U as (-> & _ & _).
  destruct (1 <=? length text); [|discriminate].
  destruct (strip_prefix anchor_close s5) as [s6|] eqn:C; [|discriminate].
  apply strip_prefix_Some in C. subst s5.
  apply accept_Some in H. injection H as _ ->.
  unfold item. rewrite Hgroups. cbn [Nat.eqb get_mark set_mark].
  assert (Hsl : forall b e',
             b = pos + length (w1 ++ titleline_marker ++ w2 ++ [62%N]) ->
             e' = b + length text -> slice html b e' = text).
  { intros b e' -> ->.
    apply slice_at with (rest := anchor_close ++ s6).
    rewrite <- Hs, <- !app_assoc. reflexivity. }
  rewrite Hsl;
    [| rewrite !length_app; change (length titleline_marker) with 17;
       cbn [length]; lia
     | lia].
  exists (firstn pos html ++ w1), w2, s6.
  rewrite (firstn_skipn_at html pos Hs) at 1.
  rewrite <- !app_assoc. reflexivity.
Qed.

Lemma findall_enclosed : Forall (enclosed html) (findall p html).
Proof. apply findall_Forall. intros; eapply match_enclosed; eauto. Qed.

End Enclosure.

Lemma primary_code_marker :
  code primary
  = lits (py "<span ") ++ lits titleline_marker
    ++ (lits (py "><a") ++ [MAX_REPEAT 0 (NOT_LITERAL 62%N)])
    ++ [AT (LITERAL 62%N)] ++ capture_tail.
Proof. reflexivity. Qed.

Lemma fallback_code_marker :
  code fallback
  = [] ++ lits titleline_marker
    ++ [MAX_REPEAT 0 (NOT_LITERAL 62%N); AT (LITERAL 62%N);
        MIN_REPEAT 0 ANY_ALL; AT (LITERAL 60%N); AT (LITERAL 97%N);
        MAX_REPEAT 0 (NOT_LITERAL 62%N)]
    ++ [AT (LITERAL 62%N)] ++ capture_tail.
Proof. reflexivity. Qed.

Lemma primary_enclosed html : Forall (enclosed html) (primary_matches html).
Proof.
  rewrite primary_matches_eq.
  exact (@findall_enclosed primary _ _ primary_code_marker eq_refl html).
Qed.

Lemma fallback_enclosed html : Forall (enclosed html) (fallback_matches html).
Proof.
  rewrite fallback_matches_eq.
  exact (@findall_enclosed fallback _ _ fallback_code_marker eq_refl html).
Qed.

Lemma extracted_enclosed html : Forall (enclosed html) (extracted html).
Proof.
  unfold extracted. pose proof (primary_enclosed html) as P.
  destruct (primary_matches html); [apply fallback_enclosed | exact P].
Qed.

Lemma enclosed_occurs html t :
  enclosed html t ->
  occurs titleline_marker html /\ occurs anchor_close html /\ occurs t html.
Proof.
  intros (before & mid & after & ->). split; [|split].
  - exists before, (mid ++ 62%N :: t ++ anchor_close ++ after). reflexivity.
  - exists (before ++ titleline_marker ++ mid ++ 62%N :: t), after.
    rewrite <- !app_assoc. reflexivity.
  - exists (before ++ titleline_marker ++ mid ++ [62%N]), (anchor_close ++ after).
    rewrite <- !app_assoc. reflexivity.
Qed.

(** ** When the fallback pattern is sure to match *)

Lemma min_repeat_any k mid : forall s pos m,
  k s (pos + length mid) m <> None ->
  min_repeat ANY_ALL k 0 (mid ++ s) pos m <> None.
Proof.
  induction mid as [|x mid IH]; intros s pos m H.
  - cbn [app length] in *. rewrite Nat.add_0_r in H.
    destruct s; cbn [min_repeat Nat.eqb]; destruct (k _ pos m); congruence.
  - cbn [app min_repeat Nat.eqb].
    destruct (k (x :: mid ++ s) pos m); [discriminate|].
    cbn [accepts Nat.pred]. apply IH.
    cbn [length] in H. rewrite <- plus_n_Sm in H. exact H.
Qed.

Lemma sre_match_max min cs c k s pos m :
  sre_match (MAX_REPEAT min cs :: c) k s pos m
  = max_repeat cs (sre_match c k) min s pos m.
Proof. reflexivity. Qed.

Lemma sre_match_min min cs c k s pos m :
  sre_match (MIN_REPEAT min cs :: c) k s pos m
  = min_repeat cs (sre_match c k) min s pos m.
Proof. reflexivity. Qed.

Lemma sre_match_lit x c k s pos m :
  sre_match (AT (LITERAL x) :: c) k (x :: s) pos m = sre_match c k s (S pos) m.
Proof. cbn [sre_match accepts]. unfold char_eqb. rewrite N.eqb_refl. reflexivity. Qed.

Lemma match_fallback_loose a1 mid a2 t rest pos :
  ~ In 62%N a1 -> ~ In 62%N a2 -> captured_ok t ->
  sre_match (code fallback) (accept false 0)
            (titleline_marker ++ a1 ++ 62%N :: mid
             ++ 60%N :: 97%N :: a2 ++ 62%N :: t ++ anchor_close ++ rest)
            pos [] <> None.
Proof.
  intros H1 H2 [Hne Ht]. rewrite fallback_code_marker.
  change ([] ++ lits titleline_marker ++ ?c) with (lits titleline_marker ++ c).
  rewrite match_lits, strip_prefix_app. cbn [app].
  rewrite sre_match_max, max_repeat_upto by apply requires_at.
  rewrite upto_app by exact H1. cbn [Nat.leb].
  rewrite sre_match_lit, sre_match_min.
  apply min_repeat_any.
  rewrite !sre_match_lit, sre_match_max, max_repeat_upto by apply requires_at.
  rewrite upto_app by exact H2. cbn [Nat.leb].
  rewrite sre_match_lit, match_capture_tail, anchor_close_eq. cbn [app].
  rewrite upto_app by exact Ht.
  destruct t as [|c t]; [congruence|]. cbn [length Nat.leb].
  change (60%N :: 47%N :: 97%N :: 62%N :: rest)
    with ([60; 47; 97; 62]%N ++ rest).
  rewrite strip_prefix_app. discriminate.
Qed.

(** A match somewhere in the subject makes the search succeed. *)
Lemma search_complete c : forall pre s pos,
  sre_match c (accept false 0) s (pos + length pre) [] <> None ->
  sre_search c (pre ++ s) pos false <> None.
Proof.
  induction pre as [|x pre IH]; intros s pos H.
  - cbn [app length] in *. rewrite Nat.add_0_r in H.
    destruct s; cbn [sre_search]; change (accept false pos) with (accept false 0);
      destruct (sre_match c (accept false 0) _ pos []) as [[e m]|]; congruence.
  - cbn [app sre_search].
    destruct (sre_match c (accept false pos) (x :: pre ++ s) pos [])
      as [[e m]|]; [discriminate|].
    apply IH. cbn [length] in H. rewrite <- plus_n_Sm in H. exact H.
Qed.

Lemma findall_nonempty p html :
  sre_search (code p) html 0 false <> None -> findall p html <> [].
Proof.
  intros H. unfold findall.
  replace (2 * length html + 3) with (S (2 * length html + 2)) by lia.
  cbn [findall_loop skipn].
  destruct (sre_search (code p) html 0 false) as [[[b e] m]|];
    [discriminate | congruence].
Qed.

Lemma fallback_loose html pre a1 mid a2 t rest :
  loose_shape html pre a1 mid a2 t rest -> fallback_matches html <> [].
Proof.
  intros (-> & H1 & H2 & Ht). rewrite fallback_matches_eq.
  apply findall_nonempty, search_complete.
  apply match_fallback_loose; assumption.
Qed.

Lemma titleline_open_marker :
  titleline_open = py "<span " ++ titleline_marker ++ [62; 60; 97]%N.
Proof. reflexivity. Qed.

Lemma spec_titles_nonempty : forall html,
  spec_titles html <> [] ->
  exists pre s t, html = pre ++ s /\ spec_anchor s = Some t.
Proof.
  induction html as [|x html IH]; intros H; [contradiction H; reflexivity|].
  rewrite spec_titles_cons in H.
  destruct (spec_anchor (x :: html)) as [t|] eqn:A.
  - exists [], (x :: html), t. split; [reflexivity | exact A].
  - destruct (IH H) as (pre & s & t & -> & Hs).
    exists (x :: pre), s, t. split; [reflexivity | exact Hs].
Qed.

(** A well-formed anchor is one of the shapes the fallback accepts. *)
Lemma anchor_is_loose pre s a t rest :
  anchor_shape s a t rest ->
  loose_shape (pre ++ s) (pre ++ py "<span ") [] [] a t rest.
Proof.
  intros (-> & Ha & Ht). split; [|split; [intros [] | split; assumption]].
  rewrite titleline_open_marker, <- !app_assoc. reflexivity.
Qed.

(** ** The primary pattern, piece by piece *)

Lemma spec_titles_anchor a t rest :
  ~ In 62%N a -> captured_ok t ->
  spec_titles (titleline_open ++ a ++ 62%N :: t ++ anchor_close ++ rest)
  = t :: spec_titles rest.
Proof.
  intros Ha Ht.
  assert (Sh : anchor_shape
                 (titleline_open ++ a ++ 62%N :: t ++ anchor_close ++ rest)
                 a t rest) by (split; [reflexivity | split; assumption]).
  destruct (anchor_quiet Sh) as (x & w & E & Q & _).
  rewrite E, spec_titles_cons, <- E, (spec_anchor_shape Sh).
  f_equal. apply quiet_titles. exact Q.
Qed.

Lemma spec_titles_text junk rest :
  ~ In 60%N junk -> spec_titles (junk ++ rest) = spec_titles rest.
Proof. intros H. apply quiet_titles, quiet_text. exact H. Qed.

(** ** Trimming, exactly *)

Lemma lstrip_spaces l : forall s, all_space l -> lstrip (l ++ s) = lstrip s.
Proof.
  induction l as [|x l IH]; intros s H; [reflexivity|].
  inversion H; subst. cbn [app lstrip].
  match goal with Hx : isspace x = true |- _ => rewrite Hx end.
  apply IH. assumption.
Qed.

Lemma lstrip_fixed c s :
  (forall x, hd_error c = Some x -> isspace x = false) -> c <> [] ->
  lstrip (c ++ s) = c ++ s.
Proof.
  intros H Hne. destruct c as [|x c]; [congruence|].
  cbn [app lstrip]. rewrite (H x eq_refl). reflexivity.
Qed.

(** X11.  [strip] returns the core of a string: when a non-empty text
    without whitespace at its ends stands between two runs of whitespace,
    the result is exactly that text, inner whitespace included. *)
Lemma strip_core l c r :
  all_space l -> all_space r -> c <> [] -> no_edge_space c ->
  strip (l ++ c ++ r) = c.
Proof.
  intros Hl Hr Hne [Hh Ht]. unfold strip, rstrip.
  rewrite lstrip_spaces by exact Hl.
  rewrite lstrip_fixed by assumption.
  rewrite rev_app_distr, lstrip_spaces by (apply all_space_rev; exact Hr).
  rewrite <- (app_nil_r (rev c)), lstrip_fixed.
  - rewrite app_nil_r. apply rev_involutive.
  - exact Ht.
  - intros E. apply Hne. rewrite <- (rev_involutive c), E. reflexivity.
Qed.

Lemma strip_core_witness : strip (py "  Hello  World ") = py "Hello  World".
Proof.
  apply (@strip_core (py "  ") (py "Hello  World") (py " "));
    [repeat constructor | repeat constructor | discriminate |].
  split; intros c [= <-]; reflexivity.
Defined.

Lemma strip_incl t x : In x (strip t) -> In x t.
Proof.
  intros H. destruct (strip_spec t) as (l & r & E & _).
  rewrite E. apply in_or_app. right. apply in_or_app. left. exact H.
Qed.

(** ** What reaches standard output *)

Lemma extracted_captured html : Forall captured_ok (extracted html).
Proof.
  unfold extracted.
  assert (P : Forall captured_ok (primary_matches html))
    by (rewrite primary_matches_eq;
        apply findall_items with (pre := primary_head); reflexivity).
  destruct (primary_matches html); [|exact P].
  rewrite fallback_matches_eq.
  apply findall_items with (pre := fallback_head); reflexivity.
Qed.

Lemma str_of_nat_no_lt n : ~ In 60%N (str_of_nat n).
Proof.
  intros H. pose proof (str_of_nat_digits n) as D.
  rewrite Forall_forall in D. apply D in H. unfold is_digit in H. lia.
Qed.

Lemma msg_count_no_lt n : ~ In 60%N (msg_count n).
Proof.
  unfold msg_count. intros H.
  apply in_app_or in H. destruct H as [H|H];
    [revert H; apply not_in_existsb; reflexivity|].
  apply in_app_or in H. destruct H as [H|H];
    [exact (str_of_nat_no_lt n H)|].
  apply in_app_or in H. destruct H as [H|H];
    revert H; apply not_in_existsb; reflexivity.
Qed.

Lemma msg_title_no_lt i t : ~ In 60%N t -> ~ In 60%N (msg_title i t).
Proof.
  unfold msg_title. intros Ht H.
  apply in_app_or in H. destruct H as [H|H]; [exact (str_of_nat_no_lt i H)|].
  apply in_app_or in H. destruct H as [H|H];
    [revert H; apply not_in_existsb; reflexivity|].
  apply Ht, strip_incl, H.
Qed.

Lemma enumerate_In {A} (xs : list A) : forall start it,
  In it (enumerate start xs) -> In (snd it) xs.
Proof.
  intros start it H. rewrite <- (enumerate_snd xs start).
  apply in_map. exact H.
Qed.

Lemma presented_no_lt titles text :
  Forall captured_ok titles ->
  In (PrintTo stdout text) (presented titles) -> ~ In 60%N text.
Proof.
  intros Hc H. destruct titles as [|x rest].
  - destruct H as [[= <-]|[]]. apply not_in_existsb. reflexivity.
  - cbn [presented] in H. destruct H as [[= <-]|H]; [apply msg_count_no_lt|].
    apply in_map_iff in H. destruct H as (it & [= <-] & Hin).
    apply msg_title_no_lt.
    apply enumerate_In in Hin. rewrite Forall_forall in Hc.
    exact (proj2 (Hc _ Hin)).
Qed.


(** ** The decoded body *)

Lemma lor_shiftl_small x y n :
  (y < 2 ^ n)%N -> N.lor (N.shiftl x n) y = (x * 2 ^ n + y)%N.
Proof.
  intros Hy.
  assert (L : N.land (N.shiftl x n) y = 0%N).
  { apply N.bits_inj. intros i. rewrite N.land_spec, N.bits_0.
    destruct (N.ltb_spec i n) as [Hi|Hi].
    - rewrite N.shiftl_spec_low by exact Hi. reflexivity.
    - rewrite <- (N.mod_small y (2 ^ n)) by exact Hy.
      rewrite N.mod_pow2_bits_high by exact Hi. apply andb_false_r. }
  rewrite <- N.lxor_lor, <- N.add_nocarry_lxor by exact L.
  rewrite N.shiftl_mul_pow2. reflexivity.
Qed.

Lemma land_mask a n : N.land a (N.ones n) = (a mod 2 ^ n)%N.
Proof. apply N.land_ones. Qed.

Lemma low6_mod b : low6 b = (b mod 64)%N.
Proof. exact (land_mask b 6). Qed.

Lemma land31 b : N.land b 31 = (b mod 32)%N.
Proof. exact (N.land_ones b 5). Qed.

Lemma land15 b : N.land b 15 = (b mod 16)%N.
Proof. exact (N.land_ones b 4). Qed.

Lemma land7 b : N.land b 7 = (b mod 8)%N.
Proof. exact (N.land_ones b 3). Qed.

Lemma mod_window b m q :
  (m * q <= b < m * q + m)%N -> (b mod m = b - m * q)%N.
Proof. intros H. symmetry. apply N.mod_unique with q; lia. Qed.

Lemma between_spec lo hi b : between lo hi b = true -> (lo <= b <= hi)%N.
Proof.
  unfold between. intros H. apply andb_true_iff in H.
  destruct H as [H1 H2]. apply N.leb_le in H1, H2. split; assumption.
Qed.

Lemma cp2_eq b0 b1 :
  N.lor (N.shiftl (N.land b0 31) 6) (low6 b1)
  = ((b0 mod 32) * 64 + b1 mod 64)%N.
Proof.
  rewrite low6_mod, land31.
  apply (@lor_shiftl_small (b0 mod 32) (b1 mod 64) 6).
  apply N.mod_upper_bound. discriminate.
Qed.

Lemma cp3_eq b0 b1 b2 :
  N.lor (N.shiftl (N.land b0 15) 12)
        (N.lor (N.shiftl (low6 b1) 6) (low6 b2))
  = ((b0 mod 16) * 4096 + ((b1 mod 64) * 64 + b2 mod 64))%N.
Proof.
  rewrite !low6_mod, land15.
  rewrite (@lor_shiftl_small (b1 mod 64) (b2 mod 64) 6)
    by (apply N.mod_upper_bound; discriminate).
  apply (@lor_shiftl_small (b0 mod 16) _ 12).
  pose proof (N.mod_upper_bound b1 64). pose proof (N.mod_upper_bound b2 64).
  change (2 ^ 6)%N with 64%N. change (2 ^ 12)%N with 4096%N. lia.
Qed.

Lemma cp4_eq b0 b1 b2 b3 :
  N.lor (N.shiftl (N.land b0 7) 18)
        (N.lor (N.shiftl (low6 b1) 12)
               (N.lor (N.shiftl (low6 b2) 6) (low6 b3)))
  = ((b0 mod 8) * 262144
     + ((b1 mod 64) * 4096 + ((b2 mod 64) * 64 + b3 mod 64)))%N.
Proof.
  rewrite !low6_mod, land7.
  pose proof (N.mod_upper_bound b1 64). pose proof (N.mod_upper_bound b2 64).
  pose proof (N.mod_upper_bound b3 64).
  rewrite (@lor_shiftl_small (b2 mod 64) (b3 mod 64) 6)
    by (change (2 ^ 6)%N with 64%N; lia).
  rewrite (@lor_shiftl_small (b1 mod 64) _ 12)
    by (change (2 ^ 6)%N with 64%N; change (2 ^ 12)%N with 4096%N; lia).
  apply (@lor_shiftl_small (b0 mod 8) _ 18).
  change (2 ^ 6)%N with 64%N. change (2 ^ 12)%N with 4096%N.
  change (2 ^ 18)%N with 262144%N. lia.
Qed.

(** The decoder yields scalar values only, and never more characters than
    it was given bytes. *)
Lemma utf8_decode_N_scalar : forall n bs html,
  length bs <= n -> utf8_decode_N bs = Some html ->
  Forall is_scalar html /\ length html <= length bs.
Proof.
  induction n as [|n IH]; intros bs html Hn H.
  - destruct bs; [|cbn [length] in Hn; lia].
    injection H as <-. split; [constructor | reflexivity].
  - destruct bs as [|b0 r0]; [injection H as <-; split; [constructor | reflexivity]|].
    cbn [utf8_decode_N] in H. cbn [length] in Hn |- *.
    assert (Step : forall c rest,
               is_scalar c -> length rest < length (b0 :: r0) ->
               option_map (cons c) (utf8_decode_N rest) = Some html ->
               Forall is_scalar html /\ length html <= length (b0 :: r0)).
    { intros c rest Hc Hl Hr.
      destruct (utf8_decode_N rest) as [h|] eqn:R; [|discriminate].
      injection Hr as <-. cbn [length] in Hl.
      destruct (IH rest h ltac:(lia) R) as [F L].
      split; [constructor; assumption | cbn [length]; lia]. }
    cbn [length] in Step.
    destruct (N.ltb_spec b0 128) as [Hb|Hb].
    { apply (Step b0 r0); [unfold is_scalar; lia | lia | exact H]. }
    destruct (between 194 223 b0) eqn:B2.
    { apply between_spec in B2.
      destruct r0 as [|b1 r1]; [discriminate|].
      destruct (is_cont b1) eqn:C1; [|discriminate].
      apply between_spec in C1. rewrite cp2_eq in H.
      refine (Step _ r1 _ _ H); [|cbn [length]; lia].
      pose proof (N.mod_upper_bound b0 32 ltac:(discriminate)).
      pose proof (N.mod_upper_bound b1 64 ltac:(discriminate)).
      unfold is_scalar. lia. }
    destruct (between 224 239 b0) eqn:B3.
    { apply between_spec in B3.
      destruct r0 as [|b1 [|b2 r2]]; try discriminate.
      destruct (between _ _ b1 && is_cont b2)%bool eqn:C; [|discriminate].
      apply andb_true_iff in C. destruct C as [C1 C2].
      apply between_spec in C1, C2. rewrite cp3_eq in H.
      refine (Step _ r2 _ _ H); [|cbn [length]; lia].
      rewrite (@mod_window b0 16 14) by lia.
      pose proof (N.mod_upper_bound b2 64 ltac:(discriminate)) as R2.
      revert R2. generalize (b2 mod 64)%N. intros x2 R2.
      unfold is_scalar. revert C1.
      destruct (N.eqb_spec b0 224), (N.eqb_spec b0 237); intros C1;
        rewrite (@mod_window b1 64 2) by lia; clear IH Step H Hn B2 Hb C2; lia. }
    destruct (between 240 244 b0) eqn:B4; [|discriminate].
    apply between_spec in B4.
    destruct r0 as [|b1 [|b2 [|b3 r3]]]; try discriminate.
    destruct (between _ _ b1 && is_cont b2 && is_cont b3)%bool eqn:C;
      [|discriminate].
    apply andb_true_iff in C. destruct C as [C C3].
    apply andb_true_iff in C. destruct C as [C1 C2].
    apply between_spec in C1, C2, C3. rewrite cp4_eq in H.
    refine (Step _ r3 _ _ H); [|cbn [length]; lia].
    rewrite (@mod_window b0 8 30) by lia.
    pose proof (N.mod_upper_bound b2 64 ltac:(discriminate)) as R2.
    pose proof (N.mod_upper_bound b3 64 ltac:(discriminate)) as R3.
    revert R2 R3. generalize (b2 mod 64)%N (b3 mod 64)%N. intros x2 x3 R2 R3.
    unfold is_scalar. revert C1.
    destruct (N.eqb_spec b0 240), (N.eqb_spec b0 244); intros C1;
      rewrite (@mod_window b1 64 2) by lia;
      clear IH Step H Hn B2 B3 Hb C2 C3; lia.
Qed.

Lemma utf8_decode_scalar body html :
  utf8_decode body = Some html ->
  Forall is_scalar html /\ length html <= length body.
Proof.
  unfold utf8_decode. intros H.
  destruct (utf8_decode_N_scalar (n := length (map Byte.to_N body))
              (map Byte.to_N body) (le_n _) H) as [F L].
  rewrite length_map in L. split; assumption.
Qed.

Lemma occursb_eq needle hay :
  occursb needle hay =
  match strip_prefix needle hay with
  | Some _ => true
  | None =>
    match hay with
    | [] => false
    | _ :: hay' => occursb needle hay'
    end
  end.
Proof. destruct hay; reflexivity. Qed.

Lemma occursb_false needle hay :
  occursb needle hay = false -> ~ occurs needle hay.
Proof.
  intros H (a & b & ->). revert H.
  induction a as [|x a IH]; intros H; rewrite occursb_eq in H.
  - cbn [app] in H. rewrite strip_prefix_app in H. discriminate.
  - cbn [app] in H.
    destruct (strip_prefix needle (x :: a ++ needle ++ b)); [discriminate|].
    apply IH. exact H.
Qed.

Lemma ascii_decodes (bs : list N) :
  Forall (fun b => (b < 128)%N) bs -> utf8_decode_N bs = Some bs.
Proof.
  induction 1 as [|b bs Hb _ IH]; cbn [utf8_decode_N]; [reflexivity|].
  apply N.ltb_lt in Hb. rewrite Hb, IH. reflexivity.
Qed.

(* ===================================================================== *)
(** * The script as a whole *)
(* ===================================================================== *)

(** X1.  On a fetched document with at least one well-formed titleline
    anchor, the run is: the request, one application of the primary
    pattern, and the presentation of exactly the titles of those anchors,
    in document order; no status line is printed and the exit code is 0. *)
Theorem anchors_are_presented (w : World) (body : bytes) (html : str) :
  http w req 10 = inr body -> utf8_decode body = Some html ->
  spec_titles html <> [] ->
  trace (run w)
  = [Urlopen req 10; Findall pattern []] ++ presented (spec_titles html)
  /\ exit_code (run w) = 0%Z.
Proof.
  intros Hh Hd Hs. rewrite run_eq, Hh, Hd. cbn [trace exit_code].
  rewrite extractor_events. unfold extracted.
  rewrite primary_matches_eq, findall_primary.
  destruct (spec_titles html) as [|x rest]; [congruence|].
  split; reflexivity.
Qed.

Lemma anchors_are_presented_witness :
  trace (run (serving padded_html))
  = [Urlopen req 10; Findall pattern [];
     PrintTo stdout (msg_count 1); PrintTo stdout (py "1. Hello World")].
Proof.
  refine (eq_trans
    (proj1 (@anchors_are_presented (serving padded_html)
              (list_byte_of_string padded_html) (py padded_html) _ _ _)) _);
    vm_compute; try reflexivity; discriminate.
Defined.

(** X2.  Every title either pattern produces is a piece of the document:
    it stands there after a titleline marker, directly between a [>] and
    the closing [</a>]. *)
Theorem titles_stand_in_document (html : str) :
  Forall (enclosed html) (primary_matches html)
  /\ Forall (enclosed html) (fallback_matches html)
  /\ Forall (fun t => enclosed html t /\ occurs t html) (extracted html).
Proof.
  split; [apply primary_enclosed|]. split; [apply fallback_enclosed|].
  pose proof (extracted_enclosed html) as E.
  rewrite Forall_forall in *. intros t Ht.
  split; [apply E, Ht|].
  apply (enclosed_occurs (E t Ht)).
Qed.

(** X3.  A document without the titleline marker, or without any closing
    [</a>], yields no title: both patterns are applied, the status line and
    the "not found" message are printed, and the exit code is 0. *)
Theorem no_marker_no_titles (w : World) (body : bytes) (html : str) :
  http w req 10 = inr body -> utf8_decode body = Some html ->
  ~ occurs titleline_marker html \/ ~ occurs anchor_close html ->
  extracted html = []
  /\ trace (run w)
     = [Urlopen req 10; Findall pattern []; PrintTo stdout msg_fallback;
        Findall pattern2 [DOTALL]; PrintTo stdout msg_not_found]
  /\ exit_code (run w) = 0%Z.
Proof.
  intros Hh Hd Hno.
  assert (None_in : forall l, Forall (enclosed html) l -> l = []).
  { intros [|t l] F; [reflexivity|]. inversion F as [|? ? Ht _]; subst.
    destruct (enclosed_occurs Ht) as (O1 & O2 & _).
    destruct Hno as [Hno|Hno]; contradiction. }
  pose proof (None_in _ (primary_enclosed html)) as P.
  pose proof (None_in _ (fallback_enclosed html)) as F.
  rewrite run_eq, Hh, Hd. cbn [trace exit_code].
  rewrite extractor_events. unfold extracted. rewrite P, F.
  repeat split.
Qed.

Lemma no_marker_no_titles_witness :
  trace (run (serving no_titles_html))
  = [Urlopen req 10; Findall pattern []; PrintTo stdout msg_fallback;
     Findall pattern2 [DOTALL]; PrintTo stdout msg_not_found].
Proof.
  refine (proj1 (proj2 (@no_marker_no_titles (serving no_titles_html)
                          (list_byte_of_string no_titles_html)
                          (py no_titles_html) _ _ _)));
    [vm_compute; reflexivity | vm_compute; reflexivity |].
  left. apply occursb_false. vm_compute. reflexivity.
Defined.

(** X4.  When the document holds a titleline marker whose tag is closed,
    followed after any text (other tags and line breaks included) by an
    anchor [<a ...>TEXT</a>] with a non-empty TEXT free of [<], the
    fallback pattern finds a title; so the extractor's result is not empty
    and the presenter starts with the count line, not with "not found". *)
Theorem fallback_finds_loose_anchor (html pre a1 mid a2 t rest : str) :
  loose_shape html pre a1 mid a2 t rest ->
  fallback_matches html <> []
  /\ extracted html <> []
  /\ hd_error (presented (extracted html))
     = Some (PrintTo stdout (msg_count (length (extracted html)))).
Proof.
  intros Sh. pose proof (fallback_loose Sh) as F.
  assert (E : extracted html <> []).
  { unfold extracted. destruct (primary_matches html); [exact F | discriminate]. }
  split; [exact F|]. split; [exact E|].
  destruct (extracted html); [congruence | reflexivity].
Qed.

Lemma fallback_finds_loose_anchor_witness :
  fallback_matches multiline_html <> [].
Proof.
  refine (proj1 (@fallback_finds_loose_anchor multiline_html
                   (py "<td ") [] ([10%N] ++ py "<b>new</b>" ++ [10%N])
                   (py " href=" ++ py dquote ++ py "x" ++ py dquote)
                   (py "Two lines below") (py "</td>") _)).
  split; [vm_compute; reflexivity|].
  split; [intros []|].
  split; [apply not_in_existsb; vm_compute; reflexivity|].
  split; [discriminate | apply not_in_existsb; vm_compute; reflexivity].
Defined.

(** X5.  The fallback pattern is at least as permissive as the primary
    one: on a document where the primary pattern has a match, the fallback
    pattern has one too. *)
Theorem primary_then_fallback (html : str) :
  primary_matches html <> [] -> fallback_matches html <> [].
Proof.
  rewrite primary_matches_eq, findall_primary. intros H.
  destruct (spec_titles_nonempty _ H) as (pre & s & t & -> & A).
  apply spec_anchor_Some in A. destruct A as (a & rest & Sh).
  eapply fallback_loose. apply anchor_is_loose. exact Sh.
Qed.

Lemma primary_then_fallback_witness : fallback_matches hello_html <> [].
Proof.
  apply (@primary_then_fallback hello_html). vm_compute. discriminate.
Defined.

(** X6.  The primary pattern reads a document piece by piece: text without
    [<] in front is skipped, a well-formed anchor gives its title, and the
    search goes on after the closing tag of that anchor.  Titles are thus
    kept in order and never merged, repeated ones included. *)
Theorem primary_matches_compose (junk a t rest : str) :
  ~ In 60%N junk -> ~ In 62%N a -> captured_ok t ->
  primary_matches
    (junk ++ titleline_open ++ a ++ 62%N :: t ++ anchor_close ++ rest)
  = t :: primary_matches rest.
Proof.
  intros Hj Ha Ht. rewrite !primary_matches_eq, !findall_primary.
  rewrite spec_titles_text by exact Hj.
  apply spec_titles_anchor; assumption.
Qed.

Lemma primary_matches_compose_witness :
  primary_matches
    (py "Top: " ++ titleline_open ++ py " id=t" ++ 62%N :: py "Hello World"
     ++ anchor_close ++ hello_html)
  = [py "Hello World"; py "Hello World"].
Proof.
  refine (eq_trans
    (@primary_matches_compose (py "Top: ") (py " id=t") (py "Hello World")
       hello_html _ _ _) _).
  - apply not_in_existsb. vm_compute. reflexivity.
  - apply not_in_existsb. vm_compute. reflexivity.
  - split; [discriminate | apply not_in_existsb; vm_compute; reflexivity].
  - vm_compute. reflexivity.
Defined.

(** X7.  Nothing the program prints on standard output contains [<]:
    neither its own messages nor any title line. *)
Theorem stdout_has_no_lt (w : World) (text : str) :
  In (PrintTo stdout text) (trace (run w)) -> ~ In 60%N text.
Proof.
  rewrite run_eq.
  destruct (http w req 10) as [e|body]; [|destruct (utf8_decode body) as [html|]];
    cbn [trace].
  - intros [[=]|[[=]|[]]].
  - intros [[=]|H]. apply in_app_or in H. destruct H as [H|H].
    + rewrite extractor_events in H.
      destruct (primary_matches html).
      * destruct H as [[=]|[[= <-]|[[=]|[]]]].
        apply not_in_existsb. reflexivity.
      * destruct H as [[=]|[]].
    + eapply presented_no_lt; [apply extracted_captured | exact H].
  - intros [[=]|[[=]|[]]].
Qed.

Lemma stdout_has_no_lt_witness : ~ In 60%N (py "1. Hello World").
Proof.
  apply (@stdout_has_no_lt (serving padded_html)).
  vm_compute. right. right. right. left. reflexivity.
Defined.

(** X9.  The text the fetcher returns holds Unicode scalar values only (no
    surrogate, nothing above U+10FFFF) and has at most as many characters
    as the body had bytes. *)
Theorem fetched_html_is_scalar (w : World) (t t' : list event) (html : str) :
  fetcher w t = (Return html, t') ->
  Forall is_scalar html
  /\ exists body, http w req 10 = inr body /\ length html <= length body.
Proof.
  rewrite fetcher_run.
  destruct (http w req 10) as [e|body]; [discriminate|].
  destruct (utf8_decode body) as [h|] eqn:D; [|discriminate].
  intros [= <- _]. destruct (utf8_decode_scalar _ D) as [F L].
  split; [exact F|]. exists body. split; [reflexivity | exact L].
Qed.

Lemma fetched_html_is_scalar_witness : Forall is_scalar (py "café €").
Proof.
  exact (proj1 (@fetched_html_is_scalar (serving "café €") [] [Urlopen req 10]
                  (py "café €") eq_refl)).
Defined.

(* ===================================================================== *)
(** * The decoder against the encoding *)
(* ===================================================================== *)

Lemma divmod_at c m q r :
  (r < m)%N -> c = (m * q + r)%N -> (c / m = q /\ c mod m = r)%N.
Proof.
  intros Hr E. split; symmetry.
  - apply N.div_unique with r; assumption.
  - apply N.mod_unique with q; assumption.
Qed.

Lemma between_true lo hi b : (lo <= b <= hi)%N -> between lo hi b = true.
Proof.
  intros [H1 H2]. unfold between. apply andb_true_iff.
  split; apply N.leb_le; assumption.
Qed.

Lemma between_false lo hi b : (b < lo \/ hi < b)%N -> between lo hi b = false.
Proof.
  intros H. unfold between. apply andb_false_iff.
  destruct H as [H|H]; [left | right]; apply N.leb_gt; exact H.
Qed.

(** *** Encoding what the decoder produced gives the bytes back *)

Lemma enc1 b : (b < 128)%N -> utf8_encode_char b = [b].
Proof.
  intros H. unfold utf8_encode_char. apply N.ltb_lt in H. rewrite H.
  reflexivity.
Qed.

Lemma enc2 b0 b1 :
  (194 <= b0 <= 223)%N -> (128 <= b1 <= 191)%N ->
  utf8_encode_char (b0 mod 32 * 64 + b1 mod 64)%N = [b0; b1].
Proof.
  intros H0 H1.
  rewrite (@mod_window b0 32 6), (@mod_window b1 64 2) by lia.
  set (c := ((b0 - 32 * 6) * 64 + (b1 - 64 * 2))%N).
  destruct (@divmod_at c 64 (b0 - 192) (b1 - 128)) as [D M];
    [lia | unfold c; lia |].
  unfold utf8_encode_char.
  destruct (N.ltb_spec c 128); [unfold c in *; lia|].
  destruct (N.ltb_spec c 2048); [|unfold c in *; lia].
  rewrite D, M. f_equal; [lia | f_equal; lia].
Qed.

Lemma enc3 b0 b1 b2 :
  (224 <= b0 <= 239)%N ->
  ((if N.eqb b0 224 then 160 else 128) <= b1 <= 191)%N ->
  (128 <= b2 <= 191)%N ->
  utf8_encode_char (b0 mod 16 * 4096 + (b1 mod 64 * 64 + b2 mod 64))%N
  = [b0; b1; b2].
Proof.
  intros H0 H1 H2.
  assert (H1' : (128 <= b1 <= 191)%N) by (destruct (N.eqb b0 224); lia).
  rewrite (@mod_window b0 16 14), (@mod_window b1 64 2),
    (@mod_window b2 64 2) by lia.
  set (c := ((b0 - 16 * 14) * 4096
             + ((b1 - 64 * 2) * 64 + (b2 - 64 * 2)))%N).
  destruct (@divmod_at c 4096 (b0 - 224) ((b1 - 128) * 64 + (b2 - 128)))
    as [D12 _]; [lia | unfold c; lia |].
  destruct (@divmod_at c 64 ((b0 - 224) * 64 + (b1 - 128)) (b2 - 128))
    as [D6 M6]; [lia | unfold c; lia |].
  destruct (@divmod_at ((b0 - 224) * 64 + (b1 - 128)) 64 (b0 - 224) (b1 - 128))
    as [_ M12]; [lia | lia |].
  assert (Lo : (2048 <= c)%N).
  { unfold c. revert H1. destruct (N.eqb_spec b0 224); intros; lia. }
  unfold utf8_encode_char.
  destruct (N.ltb_spec c 128); [lia|].
  destruct (N.ltb_spec c 2048); [lia|].
  destruct (N.ltb_spec c 65536); [|unfold c in *; lia].
  rewrite D12, D6, M12, M6. f_equal; [lia | f_equal; [lia | f_equal; lia]].
Qed.

Lemma enc4 b0 b1 b2 b3 :
  (240 <= b0 <= 244)%N ->
  ((if N.eqb b0 240 then 144 else 128) <= b1 <= 191)%N ->
  (128 <= b2 <= 191)%N -> (128 <= b3 <= 191)%N ->
  utf8_encode_char
    (b0 mod 8 * 262144
     + (b1 mod 64 * 4096 + (b2 mod 64 * 64 + b3 mod 64)))%N
  = [b0; b1; b2; b3].
Proof.
  intros H0 H1 H2 H3.
  assert (H1' : (128 <= b1 <= 191)%N) by (destruct (N.eqb b0 240); lia).
  rewrite (@mod_window b0 8 30), (@mod_window b1 64 2),
    (@mod_window b2 64 2), (@mod_window b3 64 2) by lia.
  set (c := ((b0 - 8 * 30) * 262144
             + ((b1 - 64 * 2) * 4096
                + ((b2 - 64 * 2) * 64 + (b3 - 64 * 2))))%N).
  destruct (@divmod_at c 262144 (b0 - 240)
              ((b1 - 128) * 4096 + ((b2 - 128) * 64 + (b3 - 128))))
    as [D18 _]; [lia | unfold c; lia |].
  destruct (@divmod_at c 4096 ((b0 - 240) * 64 + (b1 - 128))
              ((b2 - 128) * 64 + (b3 - 128)))
    as [D12 _]; [lia | unfold c; lia |].
  destruct (@divmod_at c 64
              (((b0 - 240) * 64 + (b1 - 128)) * 64 + (b2 - 128)) (b3 - 128))
    as [D6 M6]; [lia | unfold c; lia |].
  destruct (@divmod_at ((b0 - 240) * 64 + (b1 - 128)) 64 (b0 - 240) (b1 - 128))
    as [_ M18]; [lia | lia |].
  destruct (@divmod_at (((b0 - 240) * 64 + (b1 - 128)) * 64 + (b2 - 128)) 64
              ((b0 - 240) * 64 + (b1 - 128)) (b2 - 128))
    as [_ M12]; [lia | lia |].
  assert (Lo : (65536 <= c)%N).
  { unfold c. revert H1. destruct (N.eqb_spec b0 240); intros; lia. }
  unfold utf8_encode_char.
  destruct (N.ltb_spec c 128); [lia|].
  destruct (N.ltb_spec c 2048); [lia|].
  destruct (N.ltb_spec c 65536); [lia|].
  rewrite D18, D12, D6, M18, M12, M6.
  f_equal; [lia | f_equal; [lia | f_equal; [lia | f_equal; lia]]].
Qed.

Lemma utf8_decode_N_encode : forall n bs html,
  length bs <= n -> utf8_decode_N bs = Some html -> utf8_encode html = bs.
Proof.
  induction n as [|n IH]; intros bs html Hn H.
  - destruct bs; [|cbn [length] in Hn; lia]. injection H as <-. reflexivity.
  - destruct bs as [|b0 r0]; [injection H as <-; reflexivity|].
    cbn [utf8_decode_N] in H. cbn [length] in Hn.
    assert (Step : forall c rest pre,
               utf8_encode_char c = pre -> length rest <= n ->
               option_map (cons c) (utf8_decode_N rest) = Some html ->
               utf8_encode html = pre ++ rest).
    { intros c rest pre Hc Hl Hr.
      destruct (utf8_decode_N rest) as [h|] eqn:R; [|discriminate].
      injection Hr as <-. cbn [utf8_encode flat_map].
      rewrite Hc. f_equal. exact (IH rest h Hl R). }
    destruct (N.ltb_spec b0 128) as [Hb|Hb].
    { exact (Step b0 r0 [b0] (enc1 Hb) ltac:(lia) H). }
    destruct (between 194 223 b0) eqn:B2.
    { apply between_spec in B2.
      destruct r0 as [|b1 r1]; [discriminate|].
      destruct (is_cont b1) eqn:C1; [|discriminate].
      apply between_spec in C1. rewrite cp2_eq in H.
      cbn [length] in Hn.
      exact (Step _ r1 [b0; b1] (enc2 B2 C1) ltac:(lia) H). }
    destruct (between 224 239 b0) eqn:B3.
    { apply between_spec in B3.
      destruct r0 as [|b1 [|b2 r2]]; try discriminate.
      destruct (between _ _ b1 && is_cont b2)%bool eqn:C; [|discriminate].
      apply andb_true_iff in C. destruct C as [C1 C2].
      apply between_spec in C1, C2. rewrite cp3_eq in H.
      cbn [length] in Hn.
      refine (Step _ r2 [b0; b1; b2] (enc3 B3 _ C2) ltac:(lia) H).
      revert C1. destruct (N.eqb b0 237); intros; lia. }
    destruct (between 240 244 b0) eqn:B4; [|discriminate].
    apply between_spec in B4.
    destruct r0 as [|b1 [|b2 [|b3 r3]]]; try discriminate.
    destruct (between _ _ b1 && is_cont b2 && is_cont b3)%bool eqn:C;
      [|discriminate].
    apply andb_true_iff in C. destruct C as [C C3].
    apply andb_true_iff in C. destruct C as [C1 C2].
    apply between_spec in C1, C2, C3. rewrite cp4_eq in H.
    cbn [length] in Hn.
    refine (Step _ r3 [b0; b1; b2; b3] (enc4 B4 _ C2 C3) ltac:(lia) H).
    revert C1. destruct (N.eqb b0 244); intros; lia.
Qed.

(** *** Decoding the encoding of scalar values gives them back *)

Lemma is_cont_true b : (128 <= b <= 191)%N -> is_cont b = true.
Proof. apply between_true. Qed.

Lemma dec_enc_char c rest :
  is_scalar c ->
  utf8_decode_N (utf8_encode_char c ++ rest)
  = option_map (cons c) (utf8_decode_N rest).
Proof.
  intros [Hmax Hsur]. unfold utf8_encode_char.
  pose proof (N.div_mod' c 64) as E6.
  pose proof (N.mod_upper_bound c 64 ltac:(discriminate)) as R6.
  pose proof (N.div_mod' (c / 64) 64) as E12.
  pose proof (N.mod_upper_bound (c / 64) 64 ltac:(discriminate)) as R12.
  pose proof (N.div_mod' (c / 64 / 64) 64) as E18.
  pose proof (N.mod_upper_bound (c / 64 / 64) 64 ltac:(discriminate)) as R18.
  destruct (@divmod_at c 4096 (c / 64 / 64) (64 * ((c / 64) mod 64) + c mod 64))
    as [D12 _]; [lia | lia |].
  destruct (@divmod_at c 262144 (c / 64 / 64 / 64)
              (4096 * ((c / 64 / 64) mod 64)
               + (64 * ((c / 64) mod 64) + c mod 64)))
    as [D18 _]; [lia | lia |].
  rewrite D18, D12.
  revert E6 R6 E12 R12 E18 R18.
  generalize (c mod 64)%N ((c / 64) mod 64)%N ((c / 64 / 64) mod 64)%N.
  generalize (c / 64 / 64 / 64)%N. generalize (c / 64 / 64)%N.
  generalize (c / 64)%N. clear D12 D18.
  intros q6 q12 q18 r6 r12 r18 E6 R6 E12 R12 E18 R18.
  destruct (N.ltb_spec c 128) as [L1|L1].
  { cbn [app utf8_decode_N]. apply N.ltb_lt in L1. rewrite L1. reflexivity. }
  destruct (N.ltb_spec c 2048) as [L2|L2].
  { cbn [app utf8_decode_N].
    replace (N.ltb (192 + q6) 128) with false
      by (symmetry; apply N.ltb_ge; lia).
    rewrite (@between_true 194 223 (192 + q6)) by lia.
    rewrite (@is_cont_true (128 + r6)) by lia.
    rewrite cp2_eq.
    rewrite (@mod_window (192 + q6) 32 6), (@mod_window (128 + r6) 64 2) by lia.
    do 2 f_equal. lia. }
  destruct (N.ltb_spec c 65536) as [L3|L3].
  { cbn [app utf8_decode_N].
    replace (N.ltb (224 + q12) 128) with false
      by (symmetry; apply N.ltb_ge; lia).
    rewrite (@between_false 194 223 (224 + q12)) by lia.
    rewrite (@between_true 224 239 (224 + q12)) by lia.
    rewrite (@between_true _ _ (128 + r12))
      by (destruct (N.eqb_spec (224 + q12) 224), (N.eqb_spec (224 + q12) 237);
          lia).
    rewrite (@is_cont_true (128 + r6)) by lia.
    cbn [andb]. rewrite cp3_eq.
    rewrite (@mod_window (224 + q12) 16 14), (@mod_window (128 + r12) 64 2),
      (@mod_window (128 + r6) 64 2) by lia.
    do 2 f_equal. lia. }
  cbn [app utf8_decode_N].
  replace (N.ltb (240 + q18) 128) with false
    by (symmetry; apply N.ltb_ge; lia).
  rewrite (@between_false 194 223 (240 + q18)) by lia.
  rewrite (@between_false 224 239 (240 + q18)) by lia.
  rewrite (@between_true 240 244 (240 + q18)) by lia.
  rewrite (@between_true _ _ (128 + r18))
    by (destruct (N.eqb_spec (240 + q18) 240), (N.eqb_spec (240 + q18) 244);
        lia).
  rewrite (@is_cont_true (128 + r12)) by lia.
  rewrite (@is_cont_true (128 + r6)) by lia.
  cbn [andb]. rewrite cp4_eq.
  rewrite (@mod_window (240 + q18) 8 30), (@mod_window (128 + r18) 64 2),
    (@mod_window (128 + r12) 64 2), (@mod_window (128 + r6) 64 2) by lia.
  do 2 f_equal. lia.
Qed.

Lemma utf8_encode_decode s :
  Forall is_scalar s -> utf8_decode_N (utf8_encode s) = Some s.
Proof.
  induction 1 as [|c s Hc _ IH]; [reflexivity|].
  cbn [utf8_encode flat_map]. rewrite dec_enc_char by exact Hc.
  fold (utf8_encode s). rewrite IH. reflexivity.
Qed.

(** The decoder is UTF-8: it returns [html] exactly for the bytes that
    encode [html], a string of scalar values. *)
Lemma utf8_decode_iff body html :
  utf8_decode body = Some html
  <-> map Byte.to_N body = utf8_encode html /\ Forall is_scalar html.
Proof.
  unfold utf8_decode. split.
  - intros H. split.
    + symmetry. exact (@utf8_decode_N_encode _ _ _ (le_n _) H).
    + exact (proj1 (@utf8_decode_N_scalar _ _ _ (le_n _) H)).
  - intros [E F]. rewrite E. apply utf8_encode_decode. exact F.
Qed.

(* ===================================================================== *)
(** * The script on a console *)
(* ===================================================================== *)

Lemma print_on_run c file text t :
  print_on c file text t =
  match refuses c file text with
  | Some e => (Raise e, t)
  | None => (Return tt, t ++ [PrintTo file text])
  end.
Proof. unfold print_on. destruct (refuses c file text); reflexivity. Qed.

Lemma first_refusal_cons_print c f text evs :
  first_refusal c (PrintTo f text :: evs) =
  match refuses c f text with
  | Some e => Some ([], e)
  | None => option_map (fun pe => (PrintTo f text :: fst pe, snd pe))
                       (first_refusal c evs)
  end.
Proof. reflexivity. Qed.

Lemma first_refusal_app c a : forall b,
  first_refusal c (a ++ b) =
  match first_refusal c a with
  | Some pe => Some pe
  | None => option_map (fun pe => (a ++ fst pe, snd pe)) (first_refusal c b)
  end.
Proof.
  induction a as [|ev a IH]; intros b; cbn [app first_refusal].
  - destruct (first_refusal c b) as [[pre e]|]; reflexivity.
  - destruct (match ev with PrintTo f text => refuses c f text | _ => None end);
      [reflexivity|].
    rewrite IH. destruct (first_refusal c a) as [[pre e]|]; [reflexivity|].
    destruct (first_refusal c b) as [[pre e]|]; reflexivity.
Qed.

(** A sequence of events has a refused [print] exactly when
    [first_refusal] finds one. *)
Lemma first_refusal_None c evs :
  first_refusal c evs = None
  <-> forall f text, In (PrintTo f text) evs -> refuses c f text = None.
Proof.
  induction evs as [|ev evs IH]; cbn [first_refusal].
  - split; [intros _ f text [] | reflexivity].
  - split.
    + intros H f text [->|Hin].
      * destruct (refuses c f text); [discriminate | reflexivity].
      * destruct (match ev with PrintTo f0 t0 => refuses c f0 t0 | _ => None end);
          [discriminate|].
        destruct (first_refusal c evs); [discriminate|].
        exact (proj1 IH eq_refl f text Hin).
    + intros H.
      assert (E : match ev with PrintTo f t0 => refuses c f t0 | _ => None end
                  = None).
      { destruct ev as [r z|pt fl|f t0]; try reflexivity.
        apply H. left. reflexivity. }
      rewrite E. rewrite (proj2 IH); [reflexivity|].
      intros f text Hin. apply H. right. exact Hin.
Qed.

Lemma first_refusal_prefix c evs pre e :
  first_refusal c evs = Some (pre, e) ->
  exists f text rest,
    evs = pre ++ PrintTo f text :: rest /\ refuses c f text = Some e
    /\ first_refusal c pre = None.
Proof.
  revert pre. induction evs as [|ev evs IH]; intros pre H;
    cbn [first_refusal] in H; [discriminate|].
  destruct (match ev with PrintTo f t0 => refuses c f t0 | _ => None end)
    as [e'|] eqn:R.
  - injection H as <- <-. destruct ev as [r z|pt fl|f t0]; try discriminate.
    exists f, t0, evs. repeat split. exact R.
  - destruct (first_refusal c evs) as [[pre' e']|] eqn:F; [|discriminate].
    injection H as <- <-.
    destruct (IH pre' eq_refl) as (f & text & rest & -> & Hr & Hp).
    exists f, text, rest. repeat split; [exact Hr|].
    cbn [first_refusal]. rewrite R, Hp. reflexivity.
Qed.

Lemma for_enumerate_on c titles : forall start t,
  for_enumerate start titles
                (fun i title => print_on c stdout (msg_title i title)) t
  = match first_refusal c
            (map (fun it => PrintTo stdout (msg_title (fst it) (snd it)))
                 (enumerate start titles)) with
    | None =>
      (Return tt,
       t ++ map (fun it => PrintTo stdout (msg_title (fst it) (snd it)))
                (enumerate start titles))
    | Some pe => (Raise (snd pe), t ++ fst pe)
    end.
Proof.
  induction titles as [|x titles IH]; intros start t;
    cbn [for_enumerate enumerate map].
  - cbn [first_refusal]. unfold ret. rewrite app_nil_r. reflexivity.
  - rewrite first_refusal_cons_print. cbn [fst snd].
    unfold bind. rewrite print_on_run.
    destruct (refuses c stdout (msg_title start x)) as [e|].
    + cbn [fst snd]. rewrite app_nil_r. reflexivity.
    + rewrite IH.
      destruct (first_refusal c _) as [[pre e]|]; cbn [option_map fst snd];
        rewrite <- app_assoc; reflexivity.
Qed.

Lemma presenter_on_run c titles t :
  presenter_on c titles t =
  match first_refusal c (presented titles) with
  | None => (Return tt, t ++ presented titles)
  | Some pe => (Raise (snd pe), t ++ fst pe)
  end.
Proof.
  destruct titles as [|x titles].
  - cbn [presenter_on presented]. rewrite print_on_run, first_refusal_cons_print.
    destruct (refuses c stdout msg_not_found); cbn [first_refusal option_map fst snd];
      rewrite ?app_nil_r; reflexivity.
  - unfold presenter_on, presented. rewrite first_refusal_cons_print.
    unfold bind. rewrite print_on_run.
    destruct (refuses c stdout (msg_count (length (x :: titles)))) as [e|].
    + cbn [fst snd]. rewrite app_nil_r. reflexivity.
    + rewrite for_enumerate_on.
      destruct (first_refusal c _) as [[pre e]|]; cbn [option_map fst snd];
        rewrite <- app_assoc; reflexivity.
Qed.

Lemma extractor_on_run c html t :
  extractor_on c html t =
  match first_refusal c (events (extractor html)) with
  | None => (Return (extracted html), t ++ events (extractor html))
  | Some pe => (Raise (snd pe), t ++ fst pe)
  end.
Proof.
  rewrite extractor_events. unfold extractor_on, extracted, bind at 1.
  rewrite re_findall_primary.
  destruct (primary_matches html) as [|t1 ts]; [|reflexivity].
  unfold bind. rewrite print_on_run.
  cbn [first_refusal].
  destruct (refuses c stdout msg_fallback) as [e|]; [reflexivity|].
  rewrite re_findall_fallback, <- !app_assoc. reflexivity.
Qed.

Lemma try_block_on_run c w t :
  try_block_on c w t =
  match http w req 10 with
  | inl e => (Raise e, t ++ [Urlopen req 10])
  | inr body =>
    match utf8_decode body with
    | None => (Raise (UnicodeDecodeError w body), t ++ [Urlopen req 10])
    | Some html =>
      match first_refusal c (script_events html) with
      | None => (Return tt, t ++ Urlopen req 10 :: script_events html)
      | Some pe => (Raise (snd pe), t ++ Urlopen req 10 :: fst pe)
      end
    end
  end.
Proof.
  unfold try_block_on, bind at 1. rewrite fetcher_run.
  destruct (http w req 10) as [e|body]; [reflexivity|].
  destruct (utf8_decode body) as [html|]; [|reflexivity].
  unfold bind, script_events. rewrite extractor_on_run, first_refusal_app.
  destruct (first_refusal c (events (extractor html))) as [[pre e]|].
  - cbn [fst snd]. rewrite <- app_assoc. reflexivity.
  - rewrite presenter_on_run.
    destruct (first_refusal c (presented (extracted html))) as [[pre e]|];
      cbn [option_map fst snd]; rewrite <- !app_assoc; reflexivity.
Qed.

Lemma handler_run c e t :
  (print_on c stderr (msg_error e) ;; sys_exit 1) t
  = match refuses c stderr (msg_error e) with
    | None => (@Exit unit 1, t ++ [PrintTo stderr (msg_error e)])
    | Some e' => (Raise e', t)
    end.
Proof.
  unfold bind. rewrite print_on_run.
  destruct (refuses c stderr (msg_error e)); reflexivity.
Qed.

(** The ways a run on a console can go. *)
Lemma run_on_eq c w :
  run_on c w =
  match http w req 10 with
  | inl e => handled c [Urlopen req 10] e
  | inr body =>
    match utf8_decode body with
    | None => handled c [Urlopen req 10] (UnicodeDecodeError w body)
    | Some html =>
      match first_refusal c (script_events html) with
      | None => {| trace := Urlopen req 10 :: script_events html;
                   exit_code := 0 |}
      | Some pe => handled c (Urlopen req 10 :: fst pe) (snd pe)
      end
    end
  end.
Proof.
  unfold run_on, script_on, try_except. rewrite try_block_on_run.
  assert (H : forall t e,
             match (print_on c stderr (msg_error e) ;; @sys_exit unit 1) t with
             | (Return _, t') => {| trace := t'; exit_code := 0 |}
             | (Raise _, t') => {| trace := t'; exit_code := 1 |}
             | (Exit n, t') => {| trace := t'; exit_code := n |}
             end = handled c t e).
  { intros t e. rewrite handler_run. unfold handled.
    destruct (refuses c stderr (msg_error e)); reflexivity. }
  destruct (http w req 10) as [e|body]; [apply H|].
  destruct (utf8_decode body) as [html|]; [|apply H].
  destruct (first_refusal c (script_events html)) as [[pre e]|];
    [apply H | reflexivity].
Qed.

Lemma handled_exit c t e : exit_code (handled c t e) = 1%Z.
Proof. unfold handled. destruct (refuses c stderr (msg_error e)); reflexivity. Qed.

(** [run] is the run on the console that takes everything. *)
Lemma run_on_open w : run_on open_console w = run w.
Proof.
  rewrite run_on_eq, run_eq.
  destruct (http w req 10) as [e|body]; [reflexivity|].
  destruct (utf8_decode body) as [html|]; [|reflexivity].
  rewrite (proj2 (first_refusal_None open_console (script_events html)));
    [reflexivity|].
  intros f text _. reflexivity.
Qed.

Lemma some_print_refused_iff c html :
  some_print_refused c html <-> first_refusal c (script_events html) <> None.
Proof.
  split.
  - intros (f & text & Hin & Hr) E. apply Hr.
    exact (proj1 (first_refusal_None c _) E f text Hin).
  - intros H. destruct (first_refusal c (script_events html)) as [[pre e]|] eqn:F;
      [|congruence].
    destruct (first_refusal_prefix _ _ F) as (f & text & rest & E & Hr & _).
    exists f, text. split; [|rewrite Hr; discriminate].
    rewrite E. apply in_or_app. right. left. reflexivity.
Qed.

Lemma filter_prefix_nil (pre rest : list event) :
  filter is_urlopen (pre ++ rest) = [] -> filter is_urlopen pre = [].
Proof.
  rewrite filter_app. intros H. apply app_eq_nil in H. exact (proj1 H).
Qed.

Lemma urlopen_script_events html : filter is_urlopen (script_events html) = [].
Proof.
  unfold script_events.
  rewrite filter_app, urlopen_extractor, urlopen_presented. reflexivity.
Qed.

Lemma urlopen_handled c t e :
  filter is_urlopen (trace (handled c t e)) = filter is_urlopen t.
Proof.
  unfold handled. destruct (refuses c stderr (msg_error e)); cbn [trace];
    [reflexivity|].
  rewrite filter_app. cbn [filter is_urlopen]. apply app_nil_r.
Qed.

(* ===================================================================== *)
(** * The extractor, the fetcher and the handler *)
(* ===================================================================== *)

(** ** The extractor and the anchors *)

(** C1, as stated, fails on a document without any well-formed anchor: the
    primary pattern finds nothing, the fallback pattern is applied, and the
    extractor can return a title although N is 0. *)
Lemma extractor_not_exactly_the_anchors : ~ exactly_the_anchors (py nested_html).
Proof.
  intros H. specialize (H []). vm_compute in H. discriminate H.
Qed.

(** C1, amended.  For every document, [re.findall] with the primary pattern
    returns the titles of the N well-formed titleline anchors of the
    document, one per anchor and in document order.  When N is at least 1
    the extractor returns exactly these N titles; when N is 0 it returns
    what the fallback pattern finds.  The document of the scenario yields
    exactly [["Hello World"]]. *)
Theorem extractor_returns_anchor_titles :
  (forall html t,
      re_findall pattern html [] t
      = (Return (spec_titles html), t ++ [Findall pattern []])
      /\ (spec_titles html <> [] ->
          extractor html t
          = (Return (spec_titles html), t ++ [Findall pattern []]))
      /\ (spec_titles html = [] ->
          extractor html t
          = (Return (fallback_matches html),
             t ++ [Findall pattern []; PrintTo stdout msg_fallback;
                   Findall pattern2 [DOTALL]])))
  /\ (forall s text,
         spec_anchor s = Some text <-> exists a rest, anchor_shape s a text rest)
  /\ extractor hello_html [] = (Return [py "Hello World"], [Findall pattern []]).
Proof.
  split; [|split].
  - intros html t.
    assert (P : primary_matches html = spec_titles html)
      by (rewrite primary_matches_eq; apply findall_primary).
    split; [rewrite re_findall_primary, P; reflexivity|].
    rewrite extractor_run, P.
    split; intros H; destruct (spec_titles html); congruence.
  - intros s text. split.
    + apply spec_anchor_Some.
    + intros (a & rest & H). eapply spec_anchor_shape; exact H.
  - rewrite extractor_run. vm_compute. reflexivity.
Qed.

Lemma extractor_returns_anchor_titles_witness :
  extractor (py padded_html) []
  = (Return [py "  Hello World "], [Findall pattern []]).
Proof.
  refine (eq_trans
    (proj1 (proj2 (proj1 extractor_returns_anchor_titles (py padded_html) []))
           _) _).
  - vm_compute. discriminate.
  - vm_compute. reflexivity.
Defined.

(** ** The fetcher and UTF-8 *)

(** C7.  Every run makes exactly one [urlopen] call, whatever the console:
    a GET request for the fixed address [https://news.ycombinator.com] with
    the header [User-Agent: Mozilla/5.0] and a timeout of 10.  The fetcher
    returns the body decoded as UTF-8: it returns [html] exactly when the
    body is the UTF-8 encoding of [html], a string of scalar values, and
    raises [UnicodeDecodeError] when the body is the encoding of none. *)
Theorem one_get_request (w : World) :
  (forall c, filter is_urlopen (trace (run_on c w)) = [Urlopen req 10])
  /\ filter is_urlopen (trace (run w)) = [Urlopen req 10]
  /\ get_method req = "GET"%string
  /\ full_url req = py "https://news.ycombinator.com"
  /\ headers req = [(py "User-Agent", py "Mozilla/5.0")]
  /\ (forall body t html t',
         http w req 10 = inr body ->
         (fetcher w t = (Return html, t')
          <-> map Byte.to_N body = utf8_encode html
              /\ Forall is_scalar html /\ t' = t ++ [Urlopen req 10]))
  /\ (forall body t,
         http w req 10 = inr body ->
         (forall html, Forall is_scalar html ->
                       map Byte.to_N body <> utf8_encode html) ->
         fetcher w t = (Raise (UnicodeDecodeError w body), t ++ [Urlopen req 10])).
Proof.
  assert (On : forall c, filter is_urlopen (trace (run_on c w)) = [Urlopen req 10]).
  { intros c. rewrite run_on_eq.
    destruct (http w req 10) as [e|body];
      [rewrite urlopen_handled; reflexivity|].
    destruct (utf8_decode body) as [html|];
      [|rewrite urlopen_handled; reflexivity].
    destruct (first_refusal c (script_events html)) as [[pre e]|] eqn:F.
    - rewrite urlopen_handled. cbn [fst filter is_urlopen]. f_equal.
      destruct (first_refusal_prefix _ _ F) as (f & text & rest & E & _).
      apply filter_prefix_nil with (rest := PrintTo f text :: rest).
      rewrite <- E. apply urlopen_script_events.
    - cbn [trace filter is_urlopen]. f_equal. apply urlopen_script_events. }
  split; [exact On|]. split; [rewrite <- run_on_open; apply On|].
  split; [reflexivity|]. split; [reflexivity|]. split; [reflexivity|]. split.
  - intros body t html t' Hh. rewrite fetcher_run, Hh. split.
    + destruct (utf8_decode body) as [h|] eqn:D; [|discriminate].
      intros [= <- <-]. apply utf8_decode_iff in D. tauto.
    + intros (E & F & ->).
      rewrite (proj2 (utf8_decode_iff body html) (conj E F)). reflexivity.
  - intros body t Hh Hno. rewrite fetcher_run, Hh.
    destruct (utf8_decode body) as [h|] eqn:D; [|reflexivity].
    apply utf8_decode_iff in D. destruct D as [E F].
    elim (Hno h F E).
Qed.

Lemma one_get_request_witness :
  fetcher (serving "café €") []
  = (Return [99; 97; 102; 233; 32; 8364]%N, [Urlopen req 10]).
Proof.
  destruct (proj1 (proj2 (proj2 (proj2 (proj2 (proj2
              (one_get_request (serving "café €")))))))
             (list_byte_of_string "café €") [] [99; 97; 102; 233; 32; 8364]%N
             [Urlopen req 10] eq_refl) as [_ H].
  apply H.
  split; [vm_compute; reflexivity|]. split; [|reflexivity].
  repeat constructor; unfold is_scalar; lia.
Defined.

(** ** What can take the run to the handler *)

(** C8, as stated, fails: every [print] of the extraction and presentation
    phase is inside the [try], and a [print] raises when the stream cannot
    take the text.  On a standard output that encodes as ASCII the status
    line is refused, so the run exits with code 1 although the fetch and
    the decoding succeeded. *)
Lemma print_can_reach_handler :
  ~ only_fetch_fails ascii_console (serving no_titles_html).
Proof.
  intros H. destruct (H eq_refl) as [e He]. vm_compute in He. discriminate He.
Qed.

(** C8, amended.  Whatever the document, both pattern applications return
    without raising, and on a standard output that takes every text the
    extractor and the presenter return too.  The only steps of the phase
    that can raise are the [print] calls: the run exits with code 1 exactly
    when the fetch step (the request or the decoding) raised or a [print]
    of the script was refused; on a console that takes every text, exactly
    when the fetch step raised. *)
Theorem only_fetch_or_print_fails :
  (forall html t,
      re_findall pattern html [] t
      = (Return (primary_matches html), t ++ [Findall pattern []])
      /\ re_findall pattern2 html [DOTALL] t
         = (Return (fallback_matches html), t ++ [Findall pattern2 [DOTALL]]))
  /\ (forall c html titles t,
         (forall text, refuses c stdout text = None) ->
         extractor_on c html t
         = (Return (extracted html), t ++ events (extractor html))
         /\ presenter_on c titles t = (Return tt, t ++ presented titles))
  /\ (forall c w,
         exit_code (run_on c w) = 1%Z
         <-> (exists e, fst (fetcher w []) = Raise e)
             \/ (exists html, fst (fetcher w []) = Return html
                              /\ some_print_refused c html))
  /\ (forall c w,
         (forall f text, refuses c f text = None) ->
         (exit_code (run_on c w) = 1%Z
          <-> exists e, fst (fetcher w []) = Raise e)).
Proof.
  assert (Exit1 : forall c w,
             exit_code (run_on c w) = 1%Z
             <-> (exists e, fst (fetcher w []) = Raise e)
                 \/ (exists html, fst (fetcher w []) = Return html
                                  /\ some_print_refused c html)).
  { intros c w. rewrite run_on_eq, fetcher_run. cbn [fst].
    destruct (http w req 10) as [e|body];
      [rewrite handled_exit; split; eauto|].
    destruct (utf8_decode body) as [html|];
      [|rewrite handled_exit; split; eauto].
    destruct (first_refusal c (script_events html)) as [[pre e]|] eqn:F.
    - rewrite handled_exit. split; [intros _; right | reflexivity].
      exists html. split; [reflexivity|].
      apply some_print_refused_iff. rewrite F. discriminate.
    - cbn [exit_code]. split; [discriminate|].
      intros [[e [=]]|(h & [= <-] & R)].
      apply some_print_refused_iff in R. congruence. }
  split; [|split; [|split; [exact Exit1|]]].
  - intros html t. split; [apply re_findall_primary | apply re_findall_fallback].
  - intros c html titles t Hc.
    assert (N : forall evs, Forall (fun ev => match ev with
                                             | PrintTo f _ => f = stdout
                                             | _ => True
                                             end) evs ->
                            first_refusal c evs = None).
    { intros evs Hev. apply first_refusal_None. intros f text Hin.
      rewrite Forall_forall in Hev. rewrite (Hev _ Hin). apply Hc. }
    split.
    + rewrite extractor_on_run, N; [reflexivity|].
      rewrite extractor_events.
      destruct (primary_matches html); repeat constructor.
    + rewrite presenter_on_run, N; [reflexivity|].
      destruct titles as [|x rest]; [repeat constructor|].
      cbn [presented]. constructor; [reflexivity|].
      apply Forall_map, Forall_forall. intros; reflexivity.
  - intros c w Hc. rewrite Exit1. split; [|intros H; left; exact H].
    intros [H|(html & _ & f & text & _ & R)]; [exact H|].
    elim (R (Hc f text)).
Qed.

Lemma only_fetch_or_print_fails_witness :
  exit_code (run_on ascii_console (serving no_titles_html)) = 1%Z
  /\ exit_code (run_on open_console timed_out) = 1%Z.
Proof.
  split.
  - apply (proj2 (proj1 (proj2 (proj2 only_fetch_or_print_fails))
                        ascii_console (serving no_titles_html))).
    right. exists (py no_titles_html). split; [vm_compute; reflexivity|].
    exists stdout, msg_fallback.
    split; [vm_compute; right; left; reflexivity | vm_compute; discriminate].
  - apply (proj2 (proj2 (proj2 (proj2 only_fetch_or_print_fails))
                        open_console timed_out (fun _ _ => eq_refl))).
    exists {| exc_type := "URLError"; exc_str := py "<urlopen error timed out>" |}.
    vm_compute. reflexivity.
Defined.



(** X10.  A body made of ASCII bytes always decodes, to the same
    characters: the fetcher returns them and raises nothing.  A run on such
    a body therefore reaches the handler only when a [print] is refused. *)
Theorem ascii_body_decodes (w : World) (body : bytes) :
  http w req 10 = inr body ->
  Forall (fun b => (Byte.to_N b < 128)%N) body ->
  (forall t, fetcher w t = (Return (map Byte.to_N body), t ++ [Urlopen req 10]))
  /\ (forall c, exit_code (run_on c w) = 1%Z ->
                some_print_refused c (map Byte.to_N body)).
Proof.
  intros Hh Ha.
  assert (D : utf8_decode body = Some (map Byte.to_N body)).
  { unfold utf8_decode. apply ascii_decodes, Forall_map. exact Ha. }
  split.
  - intros t. rewrite fetcher_run, Hh, D. reflexivity.
  - intros c. rewrite run_on_eq, Hh, D. intros H.
    apply some_print_refused_iff. intros F. rewrite F in H. discriminate H.
Qed.

Lemma ascii_body_decodes_witness :
  fetcher (serving no_titles_html) []
  = (Return (map Byte.to_N (list_byte_of_string no_titles_html)),
     [Urlopen req 10]).
Proof.
  refine (proj1 (@ascii_body_decodes (serving no_titles_html)
                   (list_byte_of_string no_titles_html) _ _) []).
  - vm_compute. reflexivity.
  - vm_compute. repeat constructor.
Defined.
